(** * Schema reconciler of the To-Do database: init/01_init_collections.js

    A shallow embedding of the initialization script and of the part of the
    database it talks to, followed by the properties of the reconciliation
    routine: seeding guard, idempotence, index targeting, ordering of the
    steps, frame conditions and validator enforcement. *)

From Stdlib Require Import ZArith NArith String Ascii List Bool Lia.
From stdpp Require Import gmap strings list fin_maps.
Import ListNotations.
Set Warnings "-register-all".
Local Open Scope string_scope.
Local Open Scope list_scope.

(* ===================================================================== *)
(** ** BSON values and documents *)
(* ===================================================================== *)

(** An ObjectId is an opaque identity; a date is a number of milliseconds. *)
Definition ObjectId := N.

Inductive value : Type :=
| VNull
| VBool (b : bool)
| VInt (z : Z)
| VString (s : string)
| VDate (ms : Z)
| VObjectId (o : ObjectId)
| VArray (l : list value)
| VObject (fs : list (string * value)).

(** A document is an ordered list of fields, as a JS object literal is. *)
Definition Doc := list (string * value).

Fixpoint field (k : string) (d : Doc) : option value :=
  match d with
  | [] => None
  | (k', v) :: d' => if String.eqb k k' then Some v else field k d'
  end.

Fixpoint value_eqb (a b : value) {struct a} : bool :=
  match a, b with
  | VNull, VNull => true
  | VBool x, VBool y => Bool.eqb x y
  | VInt x, VInt y => Z.eqb x y
  | VString x, VString y => String.eqb x y
  | VDate x, VDate y => Z.eqb x y
  | VObjectId x, VObjectId y => N.eqb x y
  | VArray l, VArray l' =>
      (fix go (l l' : list value) {struct l} : bool :=
         match l, l' with
         | [], [] => true
         | x :: xs, y :: ys => value_eqb x y && go xs ys
         | _, _ => false
         end) l l'
  | VObject fs, VObject fs' =>
      (fix go (l l' : list (string * value)) {struct l} : bool :=
         match l, l' with
         | [], [] => true
         | (k, x) :: xs, (k', y) :: ys => String.eqb k k' && value_eqb x y && go xs ys
         | _, _ => false
         end) fs fs'
  | _, _ => false
  end.

(* ===================================================================== *)
(** ** The $jsonSchema validator language used by the script *)
(* ===================================================================== *)

Inductive BsonType : Type :=
| TObject | TString | TNull | TArray | TDate | TBool | TObjectId | TInt | TLong.

Definition BsonType_eqb (a b : BsonType) : bool :=
  match a, b with
  | TObject, TObject | TString, TString | TNull, TNull | TArray, TArray
  | TDate, TDate | TBool, TBool | TObjectId, TObjectId | TInt, TInt
  | TLong, TLong => true
  | _, _ => false
  end.

(** A BSON int has 32 bits. *)
Definition isInt32 (z : Z) : bool :=
  Z.leb (-2147483648) z && Z.leb z 2147483647.

(** The type of a value.  An integer in the 32-bit range is an int; a
    wider one is not: it is stored in a wider numeric type, written [TLong]
    here, which none of the script's schemas admits. *)
Definition typeOf (v : value) : BsonType :=
  match v with
  | VNull => TNull
  | VBool _ => TBool
  | VInt z => if isInt32 z then TInt else TLong
  | VString _ => TString
  | VDate _ => TDate
  | VObjectId _ => TObjectId
  | VArray _ => TArray
  | VObject _ => TObject
  end.

(** A schema is the list of the keywords of its object literal, in source
    order.  [bsonType] carries the list of accepted types: the source writes
    a lone type name for a one-element list. *)
Inductive Keyword : Type :=
| bsonType (ts : list BsonType)
| description (s : string)
| required (ks : list string)
| additionalProperties (b : bool)
| properties (ps : list (string * list Keyword))
| minLength (n : nat)
| maxLength (n : nat)
| enum (vs : list value)
| items (s : list Keyword)
| uniqueItems (b : bool)
| default (v : value).

Definition Schema := list Keyword.

Fixpoint distinct (l : list value) : bool :=
  match l with
  | [] => true
  | x :: xs => negb (existsb (value_eqb x) xs) && distinct xs
  end.

(** Property names declared by a schema (the keys of its [properties]). *)
Fixpoint declared (s : list Keyword) : option (list string) :=
  match s with
  | [] => None
  | properties ps :: _ => Some (map fst ps)
  | _ :: r => declared r
  end.

(** Validation of one keyword.  Each keyword constrains only the values of
    the type it is about and accepts every other value; [description] and
    [default] say nothing about the value.  [additionalProperties] is checked against
    the names of the sibling [properties], passed as [names]. *)
Fixpoint holds (names : list string) (k : Keyword) (v : value) {struct k} : bool :=
  match k with
  | bsonType ts => existsb (BsonType_eqb (typeOf v)) ts
  | description _ => true
  | default _ => true
  | required ks =>
      match v with
      | VObject fs => forallb (fun n => match field n fs with Some _ => true | None => false end) ks
      | _ => true
      end
  | additionalProperties b =>
      match v with
      | VObject fs => b || forallb (fun kv => existsb (String.eqb (fst kv)) names) fs
      | _ => true
      end
  | properties ps =>
      match v with
      | VObject fs =>
          (fix each (ps : list (string * list Keyword)) : bool :=
             match ps with
             | [] => true
             | (n, s) :: ps' =>
                 match field n fs with
                 | Some x =>
                     let ns := match declared s with Some l => l | None => [] end in
                     (fix all (s' : list Keyword) : bool :=
                        match s' with
                        | [] => true
                        | k' :: r => holds ns k' x && all r
                        end) s
                 | None => true
                 end && each ps'
             end) ps
      | _ => true
      end
  | minLength n =>
      match v with
      | VString s => Nat.leb n (String.length s)
      | _ => true
      end
  | maxLength n =>
      match v with
      | VString s => Nat.leb (String.length s) n
      | _ => true
      end
  | enum vs => existsb (value_eqb v) vs
  | items s =>
      match v with
      | VArray l =>
          let ns := match declared s with Some l => l | None => [] end in
          forallb (fun x =>
            (fix all (s' : list Keyword) : bool :=
               match s' with
               | [] => true
               | k' :: r => holds ns k' x && all r
               end) s) l
      | _ => true
      end
  | uniqueItems b =>
      match v with
      | VArray l => negb b || distinct l
      | _ => true
      end
  end.

(** A value satisfies a schema when every keyword of the schema holds. *)
Definition validate (s : Schema) (v : value) : bool :=
  let ns := match declared s with Some l => l | None => [] end in
  forallb (fun k => holds ns k v) s.

(* ===================================================================== *)
(** ** Index specifications *)
(* ===================================================================== *)

(** The direction of an index key: [1] or [-1]. *)
Inductive Direction : Type := Ascending | Descending.

(** The value of an index key: a direction or a kind (["text"]).  The
    script's lists use no other value; other numbers, which a template
    literal prints in JavaScript's number format, are left out. *)
Inductive KeyVal : Type :=
| KDir (d : Direction)
| KStr (s : string).

(** [keys] is an ordered mapping from field name to direction or kind. *)
Definition Keys := list (string * KeyVal).

(** The option fields the script reads or writes; an absent field is [None]. *)
Record Options : Type := mkOptions {
  opt_unique : option bool;
  opt_name : option string;
  opt_weights : option (list (string * Z));
  opt_default_language : option string;
  opt_collection : option string
}.

(** An index spec [{ keys: {}, options: {} }]; either field may be absent. *)
Record IndexSpec : Type := mkIndexSpec {
  idx_keys : option Keys;
  idx_options : option Options
}.

#[global] Instance Direction_eq_dec : EqDecision Direction.
Proof. solve_decision. Defined.
#[global] Instance KeyVal_eq_dec : EqDecision KeyVal.
Proof. solve_decision. Defined.
#[global] Instance Options_eq_dec : EqDecision Options.
Proof. solve_decision. Defined.

Definition noOptions : Options := mkOptions None None None None None.

(** Truthiness of a string: only the empty string is falsy. *)
Definition truthy (s : string) : bool :=
  match s with EmptyString => false | String _ _ => true end.

(** [a || b] where [a] is a string field that may be absent. *)
Definition or_else (a : option string) (b : string) : string :=
  match a with
  | Some s => if truthy s then s else b
  | None => b
  end.

(** [Array.prototype.join] *)
Fixpoint join (sep : string) (l : list string) : string :=
  match l with
  | [] => ""
  | [x] => x
  | x :: r => x +:+ sep +:+ join sep r
  end.

(** [`${keys[k]}`]: the text of [1], of [-1], of a string. *)
Definition showKeyVal (v : KeyVal) : string :=
  match v with
  | KDir Ascending => "1"
  | KDir Descending => "-1"
  | KStr s => s
  end.

(** [Object.keys(keys).map(k => `${k}_${keys[k]}`).join('_')] *)
Definition derivedName (keys : Keys) : string :=
  join "_" (map (fun kv => fst kv +:+ "_" +:+ showKeyVal (snd kv)) keys).

(* ===================================================================== *)
(** ** The database: collections, validators, indexes, documents *)
(* ===================================================================== *)

(** The server is the script's external collaborator.  It is modelled as
    far as the script uses it: a map from collection names to a validator,
    an ordered index list and an ordered document list.  A schema is taken
    parsed before it is installed ([description] is an annotation,
    [default] is refused), index keys read top-level fields, and an
    operation that fails leaves the database as it was. *)

Inductive Level : Type := Off | Strict | Moderate.
Inductive Action : Type := Error | Warn.

(** The options of [createCollection] and the fields of [collMod]:
    [validator] is the schema under [$jsonSchema]. *)
Record Validation : Type := mkValidation {
  validator : Schema;
  validationLevel : Level;
  validationAction : Action
}.

Record Index : Type := mkIndex {
  ix_name : string;
  ix_keys : Keys;
  ix_options : Options
}.

#[global] Instance Index_eq_dec : EqDecision Index.
Proof. solve_decision. Defined.

Record Collection : Type := mkCollection {
  coll_validation : option Validation;
  coll_indexes : list Index;
  coll_docs : list Doc
}.

Inductive Err : Type :=
| NamespaceExists
| NamespaceNotFound
| InvalidNamespace
| FailedToParse
| CannotCreateIndex
| IndexConflict
| DuplicateKey
| DocumentValidationFailure.

Module Server.

(** Every collection is born with the index on [_id]. *)
Definition idIndex : Index := mkIndex "_id_" [("_id", KDir Ascending)] noOptions.

Definition emptyCollection (v : option Validation) : Collection :=
  mkCollection v [idIndex] [].

(** A write to a collection that does not exist creates it, when its name
    allows (see [reachable]). *)
Definition implicit (db : gmap string Collection) (coll : string) : Collection :=
  match db !! coll with
  | Some c => c
  | None => emptyCollection None
  end.

(** The names a collection may have: not empty, no [$], not under
    [system.]. *)
Fixpoint hasDollar (s : string) : bool :=
  match s with
  | EmptyString => false
  | String c r => Ascii.eqb c "$"%char || hasDollar r
  end.

Definition validName (name : string) : bool :=
  truthy name && negb (hasDollar name) && negb (String.prefix "system." name).

(** A collection that is there, or that a write may create. *)
Definition reachable (db : gmap string Collection) (coll : string) : bool :=
  match db !! coll with
  | Some _ => true
  | None => validName coll
  end.

Fixpoint uniqueNames (l : list string) : bool :=
  match l with
  | [] => true
  | x :: r => negb (existsb (String.eqb x) r) && uniqueNames r
  end.

Fixpoint uniqueTypes (l : list BsonType) : bool :=
  match l with
  | [] => true
  | x :: r => negb (existsb (BsonType_eqb x) r) && uniqueTypes r
  end.

(** The keywords the server parses.  [default] is a keyword it knows and
    refuses; [bsonType], [required] and [enum] want a non-empty list
    without repetition; sub-schemas are parsed in turn. *)
Fixpoint supported (k : Keyword) : bool :=
  match k with
  | default _ => false
  | bsonType ts => match ts with [] => false | _ :: _ => uniqueTypes ts end
  | required ks => match ks with [] => false | _ :: _ => uniqueNames ks end
  | enum vs => match vs with [] => false | _ :: _ => distinct vs end
  | properties ps =>
      (fix each (ps : list (string * list Keyword)) : bool :=
         match ps with
         | [] => true
         | (_, s) :: ps' =>
             (fix all (s' : list Keyword) : bool :=
                match s' with
                | [] => true
                | k' :: r => supported k' && all r
                end) s && each ps'
         end) ps
  | items s =>
      (fix all (s' : list Keyword) : bool :=
         match s' with
         | [] => true
         | k' :: r => supported k' && all r
         end) s
  | _ => true
  end.

(** A validator the server accepts. *)
Definition wellFormed (s : Schema) : bool := forallb supported s.

(** The server refuses a name it cannot create and a validator it cannot
    parse; a refused call leaves the database as it was. *)
Definition createCollection (name : string) (v : Validation)
    (db : gmap string Collection) : Err + gmap string Collection :=
  if negb (validName name) then inl InvalidNamespace
  else if negb (wellFormed (validator v)) then inl FailedToParse
  else match db !! name with
       | Some _ => inl NamespaceExists
       | None => inr (<[name := emptyCollection (Some v)]> db)
       end.

Definition collMod (name : string) (v : Validation)
    (db : gmap string Collection) : Err + gmap string Collection :=
  match db !! name with
  | Some c =>
      if negb (wellFormed (validator v)) then inl FailedToParse
      else inr (<[name := mkCollection (Some v) (coll_indexes c) (coll_docs c)]> db)
  | None => inl NamespaceNotFound
  end.

(** The index a [createIndex(keys, options)] call asks for; without a
    name in the options the name is built from the keys. *)
Definition requested (keys : Keys) (options : Options) : Index :=
  mkIndex (or_else (opt_name options) (derivedName keys)) keys options.

Definition isText (keys : Keys) : bool :=
  existsb (fun kv => match snd kv with KStr "text" => true | _ => false end) keys.

(** The tuple of values an index reads from a document (absent = null). *)
Definition keyOf (keys : Keys) (d : Doc) : list value :=
  map (fun kv => match field (fst kv) d with Some v => v | None => VNull end) keys.

Definition sameKey (keys : Keys) (d d' : Doc) : bool :=
  value_eqb (VArray (keyOf keys d)) (VArray (keyOf keys d')).

Fixpoint hasDuplicate (keys : Keys) (ds : list Doc) : bool :=
  match ds with
  | [] => false
  | d :: r => existsb (sameKey keys d) r || hasDuplicate keys r
  end.

Definition wantsUnique (o : Options) : bool :=
  match opt_unique o with Some true => true | _ => false end.

(** An index enforces uniqueness when declared unique; the [_id] index
    always does. *)
Definition enforced (ix : Index) : bool :=
  wantsUnique (ix_options ix) || bool_decide (map fst (ix_keys ix) = ["_id"]).

Definition clashes (ix : Index) (c : Collection) : bool :=
  existsb (fun i => bool_decide (ix_name i = ix_name ix)
                    || bool_decide (ix_keys i = ix_keys ix)) (coll_indexes c)
  || (isText (ix_keys ix) && existsb (fun i => isText (ix_keys i)) (coll_indexes c)).

(** Re-declaring an index that is already there is a no-op; an index with
    a taken name or key pattern, or a second text index, is a conflict; a
    unique index cannot be built over duplicates. *)
Definition createIndex (coll : string) (keys : Keys) (options : Options)
    (db : gmap string Collection) : Err + gmap string Collection :=
  let c := implicit db coll in
  let ix := requested keys options in
  match keys with
  | [] => inl CannotCreateIndex
  | _ :: _ =>
      if negb (reachable db coll) then inl InvalidNamespace
      else if bool_decide (ix ∈ coll_indexes c) then inr (<[coll := c]> db)
      else if clashes ix c then inl IndexConflict
      else if wantsUnique options && hasDuplicate keys (coll_docs c) then inl DuplicateKey
      else inr (<[coll := mkCollection (coll_validation c) (coll_indexes c ++ [ix]) (coll_docs c)]> db)
  end.

Definition countDocuments (coll : string) (db : gmap string Collection) : nat :=
  match db !! coll with
  | Some c => length (coll_docs c)
  | None => 0
  end.

(** With action [Error] and a level other than [Off], an inserted
    document must satisfy the validator. *)
Definition rejected (c : Collection) (d : Doc) : bool :=
  match coll_validation c with
  | Some v =>
      match validationLevel v, validationAction v with
      | Off, _ => false
      | _, Warn => false
      | _, Error => negb (validate (validator v) (VObject d))
      end
  | None => false
  end.

Definition violates (c : Collection) (d : Doc) : bool :=
  existsb (fun ix => enforced ix && existsb (sameKey (ix_keys ix) d) (coll_docs c))
          (coll_indexes c).

Definition insert (coll : string) (d : Doc)
    (db : gmap string Collection) : Err + gmap string Collection :=
  let c := implicit db coll in
  if negb (reachable db coll) then inl InvalidNamespace
  else if rejected c d then inl DocumentValidationFailure
  else if violates c d then inl DuplicateKey
  else inr (<[coll := mkCollection (coll_validation c) (coll_indexes c) (coll_docs c ++ [d])]> db).

(** An ordered bulk insert stops at the first document that fails and
    keeps the documents inserted before it. *)
Fixpoint insertAll (coll : string) (ds : list Doc)
    (db : gmap string Collection) : option Err * gmap string Collection :=
  match ds with
  | [] => (None, db)
  | d :: r =>
      match insert coll d db with
      | inl e => (Some e, db)
      | inr db' => insertAll coll r db'
      end
  end.

End Server.

(* ===================================================================== *)
(** ** The shell: state, effects and the calls the script makes *)
(* ===================================================================== *)

(** What the script can observe and change: the selected database and its
    collections, the ObjectId generator of the shell process and its clock. *)
Record World : Type := mkWorld {
  dbName : string;
  colls : gmap string Collection;
  nextOid : ObjectId;
  clock : Z
}.

(** [runCommand] documents; the script issues only [collMod]. *)
Inductive Command : Type :=
| collMod (name : string) (v : Validation).

(** Progress lines, by content (the rendering to text is not modelled). *)
Inductive Msg : Type :=
| MsgInitializing (db : string)
| MsgCreating (name : string)
| MsgUpdating (name : string)
| MsgEnsuringIndex (name : string) (keys : Keys)
| MsgSeedingUser
| MsgSeedingTasks
| MsgCompleted.

(** The calls issued, recorded in order whether or not they succeed. *)
Inductive Event : Type :=
| EvPrint (m : Msg)
| EvGetCollectionInfos (name : string)
| EvCreateCollection (name : string) (v : Validation)
| EvRunCommand (c : Command)
| EvCreateIndex (coll : string) (keys : Keys) (options : Options)
| EvCountDocuments (coll : string)
| EvInsertOne (coll : string) (d : Doc)
| EvInsertMany (coll : string) (ds : list Doc).

Inductive Outcome (A : Type) : Type :=
| Done (a : A)
| Thrown (e : Err).
Arguments Done {A} a.
Arguments Thrown {A} e.

(** A computation returns or throws; either way the world it leaves and the
    calls it issued are kept: the database does not roll back on an error. *)
Record Run (A : Type) : Type := mkRun {
  result : Outcome A;
  world : World;
  trace : list Event
}.
Arguments mkRun {A} result world trace.
Arguments result {A} r.
Arguments world {A} r.
Arguments trace {A} r.

Definition M (A : Type) : Type := World -> Run A.

Definition ret {A : Type} (a : A) : M A := fun w => mkRun (Done a) w [].

Definition bind {A B : Type} (m : M A) (f : A -> M B) : M B :=
  fun w =>
    let r := m w in
    match result r with
    | Done a => let r' := f a (world r) in mkRun (result r') (world r') (trace r ++ trace r')
    | Thrown e => mkRun (Thrown e) (world r) (trace r)
    end.

#[global] Instance M_ret : MRet M := @ret.
#[global] Instance M_bind : MBind M := fun A B f m => bind m f.

Definition setColls (w : World) (db : gmap string Collection) : World :=
  mkWorld (dbName w) db (nextOid w) (clock w).

(** A call to the server: recorded, then applied or thrown. *)
Definition call (ev : Event)
    (op : gmap string Collection -> Err + gmap string Collection) : M unit :=
  fun w =>
    match op (colls w) with
    | inr db => mkRun (Done tt) (setColls w db) [ev]
    | inl e => mkRun (Thrown e) w [ev]
    end.

Definition print (m : Msg) : M unit := fun w => mkRun (Done tt) w [EvPrint m].

Definition getName : M string := fun w => mkRun (Done (dbName w)) w [].

(** [new Date()] *)
Definition newDate : M Z := fun w => mkRun (Done (clock w)) w [].

(** [new ObjectId()]: distinct within the process. *)
Definition newObjectId : M ObjectId :=
  fun w => mkRun (Done (nextOid w))
                 (mkWorld (dbName w) (colls w) (N.succ (nextOid w)) (clock w)) [].

(** [db.getCollectionInfos({ name })]: the infos of the collections of that
    name, none or one. *)
Definition getCollectionInfos (name : string) : M (list (string * option Validation)) :=
  fun w =>
    mkRun (Done match colls w !! name with
                | Some c => [(name, coll_validation c)]
                | None => []
                end) w [EvGetCollectionInfos name].

Definition createCollection (name : string) (v : Validation) : M unit :=
  call (EvCreateCollection name v) (Server.createCollection name v).

Definition runCommand (c : Command) : M unit :=
  call (EvRunCommand c) match c with collMod name v => Server.collMod name v end.

Definition createIndex (coll : string) (keys : Keys) (options : Options) : M unit :=
  call (EvCreateIndex coll keys options) (Server.createIndex coll keys options).

Definition countDocuments (coll : string) : M nat :=
  fun w => mkRun (Done (Server.countDocuments coll (colls w))) w [EvCountDocuments coll].

(** The shell gives a document without [_id] a new ObjectId before sending
    it; the stored document has [_id] first. *)
Definition withId (d : Doc) : M Doc :=
  match field "_id" d with
  | Some _ => ret d
  | None => o ← newObjectId; ret (("_id", VObjectId o) :: d)
  end.

Fixpoint withIds (ds : list Doc) : M (list Doc) :=
  match ds with
  | [] => ret []
  | d :: r => d' ← withId d; r' ← withIds r; ret (d' :: r')
  end.

Definition insertOne (coll : string) (d : Doc) : M unit :=
  d' ← withId d;
  call (EvInsertOne coll d) (Server.insert coll d').

(** An ordered bulk write: recorded, applied as far as it goes. *)
Definition bulk (ev : Event)
    (op : gmap string Collection -> option Err * gmap string Collection) : M unit :=
  fun w =>
    match op (colls w) with
    | (None, db) => mkRun (Done tt) (setColls w db) [ev]
    | (Some e, db) => mkRun (Thrown e) (setColls w db) [ev]
    end.

Definition insertMany (coll : string) (ds : list Doc) : M unit :=
  ds' ← withIds ds;
  bulk (EvInsertMany coll ds) (Server.insertAll coll ds').

(** [Array.prototype.forEach] with a callback that may throw. *)
Fixpoint forEach {A : Type} (l : list A) (f : A -> M unit) : M unit :=
  match l with
  | [] => ret tt
  | x :: r => f x;; forEach r f
  end.

(* ===================================================================== *)
(** ** The script *)
(* ===================================================================== *)

(** The local [name] of the index loop, which shadows the parameter:
    [options.name || Object.keys(keys).map(...).join('_')]. *)
Definition indexName (keys : Keys) (options : Options) : string :=
  or_else (opt_name options) (derivedName keys).

(** The collection the index is created on:
    [name ? options.collection || arguments[1] : arguments[1]], where
    [name] is the local one and [arguments[1]] is the [name] parameter of
    [ensureCollection] (an arrow function has no [arguments] of its own). *)
Definition indexTarget (arg1 : string) (keys : Keys) (options : Options) : string :=
  if truthy (indexName keys options)
  then or_else (opt_collection options) arg1
  else arg1.

(** [idx.keys || {}] and [idx.options || {}] *)
Definition keysOf (idx : IndexSpec) : Keys :=
  match idx_keys idx with Some k => k | None => [] end.

Definition optionsOf (idx : IndexSpec) : Options :=
  match idx_options idx with Some o => o | None => noOptions end.

(** The body of the index loop. *)
Definition ensureIndex (arg1 : string) (idx : IndexSpec) : M unit :=
  let keys := keysOf idx in
  let options := optionsOf idx in
  let name := indexName keys options in
  print (MsgEnsuringIndex name keys);;
  createIndex (indexTarget arg1 keys options) keys options.

(** The block under [// Ensure indexes]; [indexes] is [None] when the
    argument is not an array. *)
Definition ensureIndexes (arg1 : string) (indexes : option (list IndexSpec)) : M unit :=
  match indexes with
  | Some l => forEach l (ensureIndex arg1)
  | None => ret tt
  end.

(** [getCollectionInfos] returns an array, which is truthy, so the test
    [!existing || existing.length === 0] is the test on the length. *)
Definition ensureCollection (name : string) (schema : Schema)
    (indexes : option (list IndexSpec)) : M unit :=
  existing ← getCollectionInfos name;
  (if Nat.eqb (length existing) 0 then
     print (MsgCreating name);;
     createCollection name (mkValidation schema Moderate Error)
   else
     print (MsgUpdating name);;
     runCommand (collMod name (mkValidation schema Moderate Error)));;
  ensureIndexes name indexes.

(** Users collection schema *)
Definition usersSchema : Schema := [
  bsonType [TObject];
  required ["email"; "passwordHash"; "createdAt"];
  additionalProperties false;
  properties [
    ("_id", [bsonType [TObjectId]]);
    ("email", [bsonType [TString]; description "User email in lowercase";
               minLength 5; maxLength 320]);
    ("passwordHash", [bsonType [TString];
                      description "BCrypt/Argon2 hash of the user's password";
                      minLength 20]);
    ("name", [bsonType [TString; TNull]; description "Optional display name";
              maxLength 120]);
    ("roles", [bsonType [TArray]; description "User roles";
               items [bsonType [TString]]; uniqueItems false]);
    ("createdAt", [bsonType [TDate]]);
    ("updatedAt", [bsonType [TDate; TNull]]);
    ("lastLoginAt", [bsonType [TDate; TNull]]);
    ("isActive", [bsonType [TBool]; description "Soft delete/disable flag";
                  default (VBool true)]);
    ("meta", [bsonType [TObject; TNull]; description "Arbitrary metadata";
              additionalProperties true])
  ]
].

(** Tasks collection schema *)
Definition tasksSchema : Schema := [
  bsonType [TObject];
  required ["title"; "status"; "ownerId"; "createdAt"];
  additionalProperties false;
  properties [
    ("_id", [bsonType [TObjectId]]);
    ("title", [bsonType [TString]; description "Task title";
               minLength 1; maxLength 300]);
    ("description", [bsonType [TString; TNull]; description "Optional details";
                     maxLength 5000]);
    ("status", [bsonType [TString];
                enum [VString "todo"; VString "in_progress"; VString "done";
                      VString "archived"];
                description "Task status"]);
    ("priority", [bsonType [TString; TInt; TNull];
                  description "Optional priority (low, medium, high) or numeric";
                  maxLength 20]);
    ("dueDate", [bsonType [TDate; TNull]; description "Optional due date"]);
    ("ownerId", [bsonType [TObjectId]; description "Reference to users._id"]);
    ("tags", [bsonType [TArray]; description "Tags for organization";
              items [bsonType [TString]]]);
    ("createdAt", [bsonType [TDate]]);
    ("updatedAt", [bsonType [TDate; TNull]]);
    ("completedAt", [bsonType [TDate; TNull]]);
    ("isDeleted", [bsonType [TBool]; description "Soft delete"; default (VBool false)]);
    ("checklist", [bsonType [TArray]; description "Subtasks/checklist items";
                   items [
                     bsonType [TObject];
                     required ["text"; "done"];
                     additionalProperties false;
                     properties [
                       ("text", [bsonType [TString]; minLength 1; maxLength 1000]);
                       ("done", [bsonType [TBool]]);
                       ("doneAt", [bsonType [TDate; TNull]])
                     ]
                   ]])
  ]
].

(** Indexes *)
Definition usersIndexes : list IndexSpec := [
  mkIndexSpec (Some [("email", KDir Ascending)])
              (Some (mkOptions (Some true) (Some "uniq_email") None None None));
  mkIndexSpec (Some [("isActive", KDir Ascending)])
              (Some (mkOptions None (Some "idx_isActive") None None None));
  mkIndexSpec (Some [("createdAt", KDir Descending)])
              (Some (mkOptions None (Some "idx_createdAt_desc") None None None))
].

Definition tasksIndexes : list IndexSpec := [
  mkIndexSpec (Some [("ownerId", KDir Ascending); ("status", KDir Ascending); ("isDeleted", KDir Ascending);
                     ("createdAt", KDir Descending)])
              (Some (mkOptions None (Some "idx_owner_status_deleted_created") None None None));
  mkIndexSpec (Some [("dueDate", KDir Ascending)])
              (Some (mkOptions None (Some "idx_dueDate") None None None));
  mkIndexSpec (Some [("title", KStr "text"); ("description", KStr "text");
                     ("tags", KStr "text")])
              (Some (mkOptions None (Some "text_search")
                               (Some [("title", 10%Z); ("description", 5%Z); ("tags", 2%Z)])
                               (Some "english") None));
  mkIndexSpec (Some [("isDeleted", KDir Ascending)])
              (Some (mkOptions None (Some "idx_isDeleted") None None None));
  mkIndexSpec (Some [("status", KDir Ascending); ("createdAt", KDir Descending)])
              (Some (mkOptions None (Some "idx_status_created_desc") None None None))
].

(** The seed documents, for the date and the identity minted by the run. *)
Definition seedUser (now : Z) (uid : ObjectId) : Doc := [
  ("_id", VObjectId uid);
  ("email", VString "demo@example.com");
  ("passwordHash", VString "bcrypt$demo-placeholder");
  ("name", VString "Demo User");
  ("roles", VArray [VString "user"]);
  ("createdAt", VDate now);
  ("updatedAt", VNull);
  ("lastLoginAt", VNull);
  ("isActive", VBool true);
  ("meta", VNull)
].

Definition seedTasks (now : Z) (uid : ObjectId) : list Doc := [
  [ ("title", VString "Welcome to your To-Do app");
    ("description", VString "Edit or delete this task. Create more to get started.");
    ("status", VString "todo");
    ("priority", VString "medium");
    ("dueDate", VNull);
    ("ownerId", VObjectId uid);
    ("tags", VArray [VString "welcome"; VString "getting-started"]);
    ("createdAt", VDate now);
    ("updatedAt", VNull);
    ("completedAt", VNull);
    ("isDeleted", VBool false);
    ("checklist", VArray [
       VObject [("text", VString "Explore the app"); ("done", VBool false); ("doneAt", VNull)];
       VObject [("text", VString "Add a new task"); ("done", VBool false); ("doneAt", VNull)]
     ]) ];
  [ ("title", VString "Try completing a task");
    ("description", VString "Mark this task as done");
    ("status", VString "in_progress");
    ("priority", VString "low");
    ("dueDate", VNull);
    ("ownerId", VObjectId uid);
    ("tags", VArray [VString "demo"]);
    ("createdAt", VDate now);
    ("updatedAt", VNull);
    ("completedAt", VNull);
    ("isDeleted", VBool false);
    ("checklist", VArray []) ]
].

(** Helpful seed for local dev: the block guarded by the count of [users]. *)
Definition seed : M unit :=
  n ← countDocuments "users";
  if Nat.eqb n 0 then
    print MsgSeedingUser;;
    now ← newDate;
    uid ← newObjectId;
    insertOne "users" (seedUser now uid);;
    print MsgSeedingTasks;;
    insertMany "tasks" (seedTasks now uid)
  else ret tt.

(** The whole script, top to bottom. *)
Definition script : M unit :=
  currentDb ← getName;
  print (MsgInitializing currentDb);;
  ensureCollection "users" usersSchema (Some usersIndexes);;
  ensureCollection "tasks" tasksSchema (Some tasksIndexes);;
  seed;;
  print MsgCompleted.

(* ===================================================================== *)
(** ** Observations of a database and the relations the calls respect *)
(* ===================================================================== *)

Definition docsOf (n : string) (db : gmap string Collection) : list Doc :=
  match db !! n with Some c => coll_docs c | None => [] end.

Definition indexesOf (n : string) (db : gmap string Collection) : list Index :=
  match db !! n with Some c => coll_indexes c | None => [] end.

Definition validationOf (n : string) (db : gmap string Collection) : option Validation :=
  match db !! n with Some c => coll_validation c | None => None end.

(** The documents of collection [n] are left as they are. *)
Definition keepsDocs (n : string) (db db' : gmap string Collection) : Prop :=
  docsOf n db' = docsOf n db.

(** The validation settings of collection [n] are left as they are. *)
Definition keepsValidation (n : string) (db db' : gmap string Collection) : Prop :=
  validationOf n db' = validationOf n db.

(** Nothing is dropped or rewritten: collections stay, and documents and
    indexes are only ever added after the existing ones. *)
Definition extends (db db' : gmap string Collection) : Prop :=
  (forall n, docsOf n db `prefix_of` docsOf n db')
  /\ (forall n, indexesOf n db `prefix_of` indexesOf n db')
  /\ dom db ⊆ dom db'.

(** A computation respects [R] when the database it leaves, returning or
    throwing, is [R]-related to the one it started from. *)
Definition preserves (R : relation (gmap string Collection)) {A : Type} (m : M A) : Prop :=
  forall w, R (colls w) (colls (world (m w))).

(* ===================================================================== *)
(** ** The calls of one [ensureCollection] *)
(* ===================================================================== *)

(** The [createIndex] calls of a trace: collection, keys, options. *)
Definition createIndexCalls (t : list Event) : list (string * Keys * Options) :=
  omap (fun e => match e with EvCreateIndex c k o => Some (c, k, o) | _ => None end) t.

(** The call the loop issues for one entry of [indexes]. *)
Definition indexCall (arg1 : string) (idx : IndexSpec) : string * Keys * Options :=
  (indexTarget arg1 (keysOf idx) (optionsOf idx), keysOf idx, optionsOf idx).

Definition indexEvents (arg1 : string) (idx : IndexSpec) : list Event :=
  [EvPrint (MsgEnsuringIndex (indexName (keysOf idx) (optionsOf idx)) (keysOf idx));
   EvCreateIndex (indexTarget arg1 (keysOf idx) (optionsOf idx)) (keysOf idx) (optionsOf idx)].

(** The three events of the validator step, by whether the collection was
    there. *)
Definition validatorEvents (name : string) (schema : Schema) (existed : bool) : list Event :=
  if existed
  then [EvGetCollectionInfos name; EvPrint (MsgUpdating name);
        EvRunCommand (collMod name (mkValidation schema Moderate Error))]
  else [EvGetCollectionInfos name; EvPrint (MsgCreating name);
        EvCreateCollection name (mkValidation schema Moderate Error)].

Definition existsColl (name : string) (db : gmap string Collection) : bool :=
  match db !! name with Some _ => true | None => false end.

(** The validator step of [ensureCollection], as the server sees it:
    [collMod] on a collection that is there, [createCollection] otherwise. *)
Definition validatorCall (name : string) (v : Validation)
    (db : gmap string Collection) : Err + gmap string Collection :=
  match db !! name with
  | Some _ => Server.collMod name v db
  | None => Server.createCollection name v db
  end.

(** The error, if any, with which the server refuses the validator step. *)
Definition refusal (name : string) (schema : Schema)
    (db : gmap string Collection) : option Err :=
  if negb (Server.reachable db name) then Some InvalidNamespace
  else if negb (Server.wellFormed schema) then Some FailedToParse
  else None.

(** A schema without its [default] keywords, at every depth. *)
Fixpoint withoutDefault (k : Keyword) : Keyword :=
  match k with
  | properties ps =>
      properties
        ((fix each (ps : list (string * list Keyword)) : list (string * list Keyword) :=
            match ps with
            | [] => []
            | (n, s) :: ps' =>
                (n, (fix all (s' : list Keyword) : list Keyword :=
                       match s' with
                       | [] => []
                       | default _ :: r => all r
                       | k' :: r => withoutDefault k' :: all r
                       end) s) :: each ps'
            end) ps)
  | items s =>
      items ((fix all (s' : list Keyword) : list Keyword :=
                match s' with
                | [] => []
                | default _ :: r => all r
                | k' :: r => withoutDefault k' :: all r
                end) s)
  | _ => k
  end.

Fixpoint withoutDefaults (s : Schema) : Schema :=
  match s with
  | [] => []
  | default _ :: r => withoutDefaults r
  | k :: r => withoutDefault k :: withoutDefaults r
  end.

(** The database after a validator step the server accepted. *)
Definition withValidator (name : string) (v : Validation)
    (db : gmap string Collection) : gmap string Collection :=
  <[name := mkCollection (Some v) (coll_indexes (Server.implicit db name)) (docsOf name db)]> db.

(** The index an entry declares is in place on the collection it targets. *)
Definition ensured (arg1 : string) (db : gmap string Collection) (idx : IndexSpec) : Prop :=
  keysOf idx <> []
  /\ Server.requested (keysOf idx) (optionsOf idx)
       ∈ indexesOf (indexTarget arg1 (keysOf idx) (optionsOf idx)) db.

Definition isIndexEvent (e : Event) : bool :=
  match e with
  | EvPrint (MsgEnsuringIndex _ _) | EvCreateIndex _ _ _ => true
  | _ => false
  end.

(** The entries of [indexes], none when the argument is not an array. *)
Definition entries (indexes : option (list IndexSpec)) : list IndexSpec :=
  match indexes with Some l => l | None => [] end.

(** A fresh shell on an empty database. *)
Definition emptyWorld : World := mkWorld "myapp" ∅ 0%N 0%Z.

(** An index entry whose options name another collection. *)
Definition strayIndex : IndexSpec :=
  mkIndexSpec (Some [("title", KDir Ascending)])
              (Some (mkOptions None (Some "idx_title") None None (Some "tasks"))).

(* ===================================================================== *)
(** ** The calls and the documents of a run of the script *)
(* ===================================================================== *)

(** Documents without [_id] as the shell sends them, the ObjectIds taken in
    turn from [o] on. *)
Fixpoint stored (o : ObjectId) (ds : list Doc) : list Doc :=
  match ds with
  | [] => []
  | d :: r => (("_id", VObjectId o) :: d) :: stored (N.succ o) r
  end.

(** The seed tasks as stored: the user took ObjectId [uid], they take the
    next two. *)
Definition storedTasks (now : Z) (uid : ObjectId) : list Doc :=
  stored (N.succ uid) (seedTasks now uid).

Definition ensureEvents (name : string) (schema : Schema) (l : list IndexSpec)
    (existed : bool) : list Event :=
  validatorEvents name schema existed ++ flat_map (indexEvents name) l.

Definition seedEvents (now : Z) (uid : ObjectId) : list Event :=
  [EvPrint MsgSeedingUser; EvInsertOne "users" (seedUser now uid);
   EvPrint MsgSeedingTasks; EvInsertMany "tasks" (seedTasks now uid)].

(** The calls the script lays out, in order, for a run from [w]. *)
Definition scriptEvents (w : World) : list Event :=
  [EvPrint (MsgInitializing (dbName w))]
  ++ ensureEvents "users" usersSchema usersIndexes (existsColl "users" (colls w))
  ++ ensureEvents "tasks" tasksSchema tasksIndexes (existsColl "tasks" (colls w))
  ++ [EvCountDocuments "users"]
  ++ match docsOf "users" (colls w) with
     | [] => seedEvents (clock w) (nextOid w)
     | _ :: _ => []
     end
  ++ [EvPrint MsgCompleted].

(** The same world on another database. *)
Definition shellOf (w : World) : string * ObjectId * Z := (dbName w, nextOid w, clock w).

(** A collection is settled when it carries the script's validator and
    every index of its list is in place. *)
Definition settled (name : string) (schema : Schema) (l : list IndexSpec)
    (db : gmap string Collection) : Prop :=
  validationOf name db = Some (mkValidation schema Moderate Error)
  /\ Forall (ensured name db) l.

(** What the seed block may add to collection [n] in a run from [w]: the
    user, then the two tasks, and only when [users] is empty. *)
Definition seedsFor (w : World) (n : string) : list Doc :=
  match docsOf "users" (colls w) with
  | [] =>
      if String.eqb n "users" then [seedUser (clock w) (nextOid w)]
      else if String.eqb n "tasks" then storedTasks (clock w) (nextOid w)
      else []
  | _ :: _ => []
  end.

(** A later shell process on the database [w] holds: another state of the
    ObjectId generator, another time. *)
Definition laterShell (w : World) (o : ObjectId) (t : Z) : World :=
  mkWorld (dbName w) (colls w) o t.

(** A database with a user and no task. *)
Definition usersOnly : World :=
  mkWorld "myapp"
    {[ "users" := mkCollection None [Server.idIndex] [seedUser 0%Z 7%N] ]} 0%N 0%Z.

(** A database with a task and no user. *)
Definition tasksOnly : World :=
  mkWorld "myapp"
    {[ "tasks" := mkCollection None [Server.idIndex]
                    [[("_id", VObjectId 50%N); ("title", VString "Buy milk");
                      ("status", VString "todo"); ("ownerId", VObjectId 7%N);
                      ("createdAt", VDate 0%Z)]] ]} 0%N 0%Z.

(** Of the indexes in the list only the one on [_id] enforces uniqueness. *)
Definition onlyIdEnforced (l : list Index) : bool :=
  forallb (fun ix => negb (Server.enforced ix)
                     || bool_decide (ix_keys ix = [("_id", KDir Ascending)])) l.

(** The documents the claims about validation speak of: a task whose status
    is a string outside the enumeration, a user whose email is a string of
    fewer than 5 characters, a task without a title. *)
Inductive invalid : string -> Doc -> Prop :=
| bad_status (d : Doc) (s : string) :
    field "status" d = Some (VString s) ->
    ~ In s ["todo"; "in_progress"; "done"; "archived"] ->
    invalid "tasks" d
| short_email (d : Doc) (s : string) :
    field "email" d = Some (VString s) ->
    String.length s < 5 ->
    invalid "users" d
| no_title (d : Doc) :
    field "title" d = None ->
    invalid "tasks" d.

(** The schema the script passes as validator of a collection. *)
Definition schemaOf (coll : string) : Schema :=
  if String.eqb coll "users" then usersSchema else tasksSchema.

(* ===================================================================== *)
(** ** Further observations *)
(* ===================================================================== *)

(** Collection [n], with all it holds, is left as it is. *)
Definition keepsLookup (n : string) (db db' : gmap string Collection) : Prop :=
  db' !! n = db !! n.

(** The progress line that closes a run. *)
Definition isCompleted (e : Event) : bool :=
  match e with EvPrint MsgCompleted => true | _ => false end.

(** The first entry of the users list: the unique index on [email]. *)
Definition uniqEmail : Index :=
  Server.requested [("email", KDir Ascending)]
                   (mkOptions (Some true) (Some "uniq_email") None None None).

(** A database whose [users] holds two documents with one email. *)
Definition duplicateEmails : World :=
  mkWorld "myapp"
    {[ "users" := mkCollection None [Server.idIndex]
                    [[("_id", VObjectId 1%N); ("email", VString "a@example.com")];
                     [("_id", VObjectId 2%N); ("email", VString "a@example.com")]] ]}
    0%N 0%Z.

(** A database whose [tasks] holds a document with the ObjectId the shell
    will mint for the first seed task. *)
Definition collidingTask : World :=
  mkWorld "myapp"
    {[ "tasks" := mkCollection None [Server.idIndex]
                    [[("_id", VObjectId 1%N); ("title", VString "Buy milk")]] ]}
    0%N 0%Z.

(** The names a schema declares under [properties] and the names it lists
    under [required]. *)
Definition declaredNames (s : Schema) : list string :=
  match declared s with Some l => l | None => [] end.

Fixpoint requiredOf (s : Schema) : list string :=
  match s with
  | [] => []
  | required ks :: _ => ks
  | _ :: r => requiredOf r
  end.

(** A task document with the four required fields and nothing else, and a
    user document with the three required fields and nothing else. *)
Definition minimalTask (title status : string) (owner : ObjectId) (created : Z) : Doc :=
  [("title", VString title); ("status", VString status);
   ("ownerId", VObjectId owner); ("createdAt", VDate created)].

Definition minimalUser (email hash : string) (created : Z) : Doc :=
  [("email", VString email); ("passwordHash", VString hash); ("createdAt", VDate created)].

(** The sub-schema of the items of a task's checklist. *)
Definition checklistItemSchema : Schema :=
  [bsonType [TObject]; required ["text"; "done"]; additionalProperties false;
   properties [("text", [bsonType [TString]; minLength 1; maxLength 1000]);
               ("done", [bsonType [TBool]]);
               ("doneAt", [bsonType [TDate; TNull]])]].

(** What makes a checklist item unacceptable: not an object, no [text], no
    [done], or a field other than [text], [done], [doneAt]. *)
Inductive badItem : value -> Prop :=
| item_not_object (v : value) : typeOf v <> TObject -> badItem v
| item_without_text (fs : Doc) : field "text" fs = None -> badItem (VObject fs)
| item_without_done (fs : Doc) : field "done" fs = None -> badItem (VObject fs)
| item_with_extra (fs : Doc) (k : string) (v : value) :
    In (k, v) fs -> ~ In k ["text"; "done"; "doneAt"] -> badItem (VObject fs).

(** The priorities the tasks schema lets through: null, an integer of 32
    bits, a string of at most 20 characters. *)
Definition priorityOk (p : value) : Prop :=
  match p with
  | VNull => True
  | VInt z => isInt32 z = true
  | VString s => String.length s <= 20
  | _ => False
  end.

(* ===================================================================== *)
(** * Properties *)
(* ===================================================================== *)

#[global] Instance keepsDocs_preorder n : PreOrder (keepsDocs n).
Proof.
  split; [intros db; reflexivity|].
  intros a b c H1 H2. unfold keepsDocs in *. congruence.
Qed.

#[global] Instance keepsValidation_preorder n : PreOrder (keepsValidation n).
Proof.
  split; [intros db; reflexivity|].
  intros a b c H1 H2. unfold keepsValidation in *. congruence.
Qed.

#[global] Instance extends_preorder : PreOrder extends.
Proof.
  split.
  - intros db. repeat split; intros; reflexivity.
  - intros a b c (D1 & I1 & C1) (D2 & I2 & C2). repeat split.
    + intros n. etrans; [apply D1 | apply D2].
    + intros n. etrans; [apply I1 | apply I2].
    + etrans; eassumption.
Qed.

Lemma docsOf_insert n m c (db : gmap string Collection) :
  docsOf n (<[m := c]> db) = if decide (m = n) then coll_docs c else docsOf n db.
Proof. unfold docsOf. rewrite lookup_insert. destruct (decide (m = n)); reflexivity. Qed.

Lemma indexesOf_insert n m c (db : gmap string Collection) :
  indexesOf n (<[m := c]> db) = if decide (m = n) then coll_indexes c else indexesOf n db.
Proof. unfold indexesOf. rewrite lookup_insert. destruct (decide (m = n)); reflexivity. Qed.

Lemma validationOf_insert n m c (db : gmap string Collection) :
  validationOf n (<[m := c]> db) = if decide (m = n) then coll_validation c else validationOf n db.
Proof. unfold validationOf. rewrite lookup_insert. destruct (decide (m = n)); reflexivity. Qed.

Lemma docsOf_implicit db n : coll_docs (Server.implicit db n) = docsOf n db.
Proof. unfold Server.implicit, docsOf. destruct (db !! n); reflexivity. Qed.

Lemma validationOf_implicit db n : coll_validation (Server.implicit db n) = validationOf n db.
Proof. unfold Server.implicit, validationOf. destruct (db !! n); reflexivity. Qed.

Lemma indexesOf_implicit db n : indexesOf n db `prefix_of` coll_indexes (Server.implicit db n).
Proof.
  unfold Server.implicit, indexesOf. destruct (db !! n); [reflexivity | apply prefix_nil].
Qed.

(** Writing a collection [c] at [m] extends the database when [c] carries
    on the documents and indexes that were at [m]. *)
Lemma extends_insert (db : gmap string Collection) m c :
  docsOf m db `prefix_of` coll_docs c ->
  indexesOf m db `prefix_of` coll_indexes c ->
  extends db (<[m := c]> db).
Proof.
  intros Hd Hi. repeat split.
  - intros n. rewrite docsOf_insert. destruct (decide (m = n)); subst; [assumption | reflexivity].
  - intros n. rewrite indexesOf_insert. destruct (decide (m = n)); subst; [assumption | reflexivity].
  - rewrite dom_insert_L. set_solver.
Qed.

(** *** The monad *)

Lemma bind_inv {A B : Type} (m : M A) (f : A -> M B) (w : World) :
  match result (m w) with
  | Done a =>
      result ((m ≫= f) w) = result (f a (world (m w)))
      /\ world ((m ≫= f) w) = world (f a (world (m w)))
      /\ trace ((m ≫= f) w) = trace (m w) ++ trace (f a (world (m w)))
  | Thrown e =>
      result ((m ≫= f) w) = Thrown e
      /\ world ((m ≫= f) w) = world (m w)
      /\ trace ((m ≫= f) w) = trace (m w)
  end.
Proof.
  unfold mbind, M_bind, bind. destruct (result (m w)); simpl; auto.
Qed.

Lemma bind_Done {A B : Type} (m : M A) (f : A -> M B) (w : World) (a : A) :
  result (m w) = Done a ->
  result ((m ≫= f) w) = result (f a (world (m w)))
  /\ world ((m ≫= f) w) = world (f a (world (m w)))
  /\ trace ((m ≫= f) w) = trace (m w) ++ trace (f a (world (m w))).
Proof. intros H. pose proof (bind_inv m f w) as B0. rewrite H in B0. exact B0. Qed.

Lemma bind_Thrown {A B : Type} (m : M A) (f : A -> M B) (w : World) (e : Err) :
  result (m w) = Thrown e ->
  result ((m ≫= f) w) = Thrown e
  /\ world ((m ≫= f) w) = world (m w)
  /\ trace ((m ≫= f) w) = trace (m w).
Proof. intros H. pose proof (bind_inv m f w) as B0. rewrite H in B0. exact B0. Qed.

Lemma setColls_colls w db : colls (setColls w db) = db.
Proof. reflexivity. Qed.

Lemma setColls_same w : setColls w (colls w) = w.
Proof. destruct w; reflexivity. Qed.

Section Preserves.
Context (R : relation (gmap string Collection)) `{!PreOrder R}.

Lemma preserves_ret {A : Type} (a : A) : preserves R (ret a).
Proof. intros w. reflexivity. Qed.

Lemma preserves_bind {A B : Type} (m : M A) (f : A -> M B) :
  preserves R m -> (forall a, preserves R (f a)) -> preserves R (m ≫= f).
Proof.
  intros Hm Hf w. pose proof (bind_inv m f w) as B0.
  destruct (result (m w)) as [a|e].
  - destruct B0 as (_ & -> & _). etrans; [apply Hm | apply Hf].
  - destruct B0 as (_ & -> & _). apply Hm.
Qed.

Lemma preserves_call ev op :
  (forall db db', op db = inr db' -> R db db') -> preserves R (call ev op).
Proof.
  intros H w. unfold call. destruct (op (colls w)) eqn:E; simpl.
  - reflexivity.
  - apply H, E.
Qed.

Lemma preserves_bulk ev op :
  (forall db, R db (snd (op db))) -> preserves R (bulk ev op).
Proof.
  intros H w. unfold bulk. specialize (H (colls w)).
  destruct (op (colls w)) as [[e|] db]; simpl in *; exact H.
Qed.

Lemma preserves_print msg : preserves R (print msg).
Proof. intros w. reflexivity. Qed.

Lemma preserves_getName : preserves R getName.
Proof. intros w. reflexivity. Qed.

Lemma preserves_newDate : preserves R newDate.
Proof. intros w. reflexivity. Qed.

Lemma preserves_newObjectId : preserves R newObjectId.
Proof. intros w. reflexivity. Qed.

Lemma preserves_getCollectionInfos n : preserves R (getCollectionInfos n).
Proof. intros w. reflexivity. Qed.

Lemma preserves_countDocuments n : preserves R (countDocuments n).
Proof. intros w. reflexivity. Qed.

Lemma preserves_withId d : preserves R (withId d).
Proof.
  unfold withId. destruct (field "_id" d).
  - apply preserves_ret.
  - apply preserves_bind; [apply preserves_newObjectId | intros; apply preserves_ret].
Qed.

Lemma preserves_withIds ds : preserves R (withIds ds).
Proof.
  induction ds as [|d r IH]; simpl.
  - apply preserves_ret.
  - apply preserves_bind; [apply preserves_withId | intros d'].
    apply preserves_bind; [apply IH | intros; apply preserves_ret].
Qed.

Lemma preserves_forEach {A : Type} (l : list A) (f : A -> M unit) :
  (forall x, In x l -> preserves R (f x)) -> preserves R (forEach l f).
Proof.
  intros Hf. induction l as [|x r IH]; simpl.
  - apply preserves_ret.
  - apply preserves_bind; [apply Hf; left; reflexivity | intros].
    apply IH. intros y Hy. apply Hf. right. exact Hy.
Qed.

(** What the server operations must satisfy for [ensureCollection] to
    respect [R]: only the collections the entries target matter. *)
Lemma preserves_ensureCollection name schema indexes :
  (forall v db db', Server.createCollection name v db = inr db' -> R db db') ->
  (forall v db db', Server.collMod name v db = inr db' -> R db db') ->
  (forall idx db db',
      In idx (entries indexes) ->
      Server.createIndex (indexTarget name (keysOf idx) (optionsOf idx))
                         (keysOf idx) (optionsOf idx) db = inr db' -> R db db') ->
  preserves R (ensureCollection name schema indexes).
Proof.
  intros Hcc Hcm Hci. unfold ensureCollection.
  apply preserves_bind; [apply preserves_getCollectionInfos | intros existing].
  apply preserves_bind.
  - destruct (Nat.eqb _ 0).
    + apply preserves_bind; [apply preserves_print | intros _].
      apply preserves_call, Hcc.
    + apply preserves_bind; [apply preserves_print | intros _].
      apply preserves_call, Hcm.
  - intros _. unfold ensureIndexes. destruct indexes as [l|]; [|apply preserves_ret].
    apply preserves_forEach. intros idx Hidx. unfold ensureIndex.
    apply preserves_bind; [apply preserves_print | intros _].
    apply preserves_call. intros db db'. apply Hci, Hidx.
Qed.

Lemma preserves_insertOne coll d :
  (forall d' db db', Server.insert coll d' db = inr db' -> R db db') ->
  preserves R (insertOne coll d).
Proof.
  intros H. unfold insertOne.
  apply preserves_bind; [apply preserves_withId | intros d'].
  apply preserves_call, H.
Qed.

Lemma insertAll_rel coll ds db :
  (forall d' db db', Server.insert coll d' db = inr db' -> R db db') ->
  R db (snd (Server.insertAll coll ds db)).
Proof.
  intros H. revert db. induction ds as [|d r IH]; intros db; simpl.
  - reflexivity.
  - destruct (Server.insert coll d db) as [e|db'] eqn:E; simpl.
    + reflexivity.
    + etrans; [eapply H, E | apply IH].
Qed.

Lemma preserves_insertMany coll ds :
  (forall d' db db', Server.insert coll d' db = inr db' -> R db db') ->
  preserves R (insertMany coll ds).
Proof.
  intros H. unfold insertMany.
  apply preserves_bind; [apply preserves_withIds | intros ds'].
  apply preserves_bulk. intros db. apply insertAll_rel, H.
Qed.

Lemma preserves_seed :
  (forall c d' db db', Server.insert c d' db = inr db' -> c = "users" \/ c = "tasks" -> R db db') ->
  preserves R seed.
Proof.
  intros H. unfold seed.
  apply preserves_bind; [apply preserves_countDocuments | intros n].
  destruct (Nat.eqb n 0); [|apply preserves_ret].
  apply preserves_bind; [apply preserves_print | intros _].
  apply preserves_bind; [apply preserves_newDate | intros now].
  apply preserves_bind; [apply preserves_newObjectId | intros uid].
  apply preserves_bind; [apply preserves_insertOne; eauto | intros _].
  apply preserves_bind; [apply preserves_print | intros _].
  apply preserves_insertMany; eauto.
Qed.

End Preserves.

(** *** The server operations *)

Lemma createCollection_inr name v db db' :
  Server.createCollection name v db = inr db' ->
  db !! name = None /\ db' = <[name := Server.emptyCollection (Some v)]> db.
Proof.
  unfold Server.createCollection. destruct (negb (Server.validName name)); [discriminate|].
  destruct (negb (Server.wellFormed (validator v))); [discriminate|].
  destruct (db !! name); [discriminate|].
  intros [= <-]. auto.
Qed.

Lemma collMod_inr name v db db' :
  Server.collMod name v db = inr db' ->
  exists c, db !! name = Some c
            /\ db' = <[name := mkCollection (Some v) (coll_indexes c) (coll_docs c)]> db.
Proof.
  unfold Server.collMod. destruct (db !! name) as [c|]; [|discriminate].
  destruct (negb (Server.wellFormed (validator v))); [discriminate|].
  intros [= <-]. eauto.
Qed.

Lemma createIndex_inr coll keys options db db' :
  Server.createIndex coll keys options db = inr db' ->
  keys <> []
  /\ exists ixs, db' = <[coll := mkCollection (validationOf coll db) ixs (docsOf coll db)]> db
                 /\ indexesOf coll db `prefix_of` ixs
                 /\ Server.requested keys options ∈ ixs.
Proof.
  unfold Server.createIndex. destruct keys as [|kv keys]; [discriminate|].
  set (ks := kv :: keys). set (c := Server.implicit db coll).
  set (ix := Server.requested ks options).
  intros H. split; [discriminate|].
  assert (Hc : forall ixs, mkCollection (coll_validation c) ixs (coll_docs c)
                           = mkCollection (validationOf coll db) ixs (docsOf coll db)).
  { intros. unfold c. rewrite validationOf_implicit, docsOf_implicit. reflexivity. }
  destruct (negb (Server.reachable db coll)); [discriminate|].
  destruct (bool_decide (ix ∈ coll_indexes c)) eqn:Hin.
  - injection H as <-. exists (coll_indexes c). split; [|split].
    + rewrite <- Hc. destruct c; reflexivity.
    + apply indexesOf_implicit.
    + apply bool_decide_eq_true in Hin. exact Hin.
  - destruct (Server.clashes ix c); [discriminate|].
    destruct (Server.wantsUnique options && Server.hasDuplicate ks (coll_docs c));
      [discriminate|].
    injection H as <-. exists (coll_indexes c ++ [ix]). split; [|split].
    + rewrite Hc. reflexivity.
    + etrans; [apply indexesOf_implicit | apply prefix_app_r; reflexivity].
    + apply elem_of_app. right. apply list_elem_of_singleton. reflexivity.
Qed.

Lemma insert_inr coll d db db' :
  Server.insert coll d db = inr db' ->
  db' = <[coll := mkCollection (validationOf coll db) (coll_indexes (Server.implicit db coll))
                               (docsOf coll db ++ [d])]> db
  /\ Server.rejected (Server.implicit db coll) d = false
  /\ Server.violates (Server.implicit db coll) d = false.
Proof.
  unfold Server.insert.
  destruct (negb (Server.reachable db coll)); [discriminate|].
  destruct (Server.rejected _ d); [discriminate|].
  destruct (Server.violates _ d); [discriminate|].
  intros [= <-]. rewrite validationOf_implicit, docsOf_implicit. auto.
Qed.

Lemma createCollection_keepsDocs name v db db' n :
  Server.createCollection name v db = inr db' -> keepsDocs n db db'.
Proof.
  intros (Hn & ->)%createCollection_inr. unfold keepsDocs.
  rewrite docsOf_insert. destruct (decide (name = n)) as [<-|]; [|reflexivity].
  unfold docsOf. rewrite Hn. reflexivity.
Qed.

Lemma createCollection_extends name v db db' :
  Server.createCollection name v db = inr db' -> extends db db'.
Proof.
  intros (Hn & ->)%createCollection_inr.
  apply extends_insert; [unfold docsOf | unfold indexesOf]; rewrite Hn; apply prefix_nil.
Qed.

Lemma createCollection_keepsValidation name v db db' n :
  n <> name -> Server.createCollection name v db = inr db' -> keepsValidation n db db'.
Proof.
  intros Hne (Hn & ->)%createCollection_inr. unfold keepsValidation.
  rewrite validationOf_insert. destruct (decide (name = n)); [congruence | reflexivity].
Qed.

Lemma collMod_keepsDocs name v db db' n :
  Server.collMod name v db = inr db' -> keepsDocs n db db'.
Proof.
  intros (c & Hc & ->)%collMod_inr. unfold keepsDocs.
  rewrite docsOf_insert. destruct (decide (name = n)) as [<-|]; [|reflexivity].
  unfold docsOf. rewrite Hc. reflexivity.
Qed.

Lemma collMod_extends name v db db' :
  Server.collMod name v db = inr db' -> extends db db'.
Proof.
  intros (c & Hc & ->)%collMod_inr.
  apply extends_insert; [unfold docsOf | unfold indexesOf]; rewrite Hc; reflexivity.
Qed.

Lemma collMod_keepsValidation name v db db' n :
  n <> name -> Server.collMod name v db = inr db' -> keepsValidation n db db'.
Proof.
  intros Hne (c & Hc & ->)%collMod_inr. unfold keepsValidation.
  rewrite validationOf_insert. destruct (decide (name = n)); [congruence | reflexivity].
Qed.

Lemma createIndex_keepsDocs coll keys options db db' n :
  Server.createIndex coll keys options db = inr db' -> keepsDocs n db db'.
Proof.
  intros (_ & ixs & -> & _)%createIndex_inr. unfold keepsDocs.
  rewrite docsOf_insert. destruct (decide (coll = n)) as [<-|]; reflexivity.
Qed.

Lemma createIndex_keepsValidation coll keys options db db' n :
  Server.createIndex coll keys options db = inr db' -> keepsValidation n db db'.
Proof.
  intros (_ & ixs & -> & _)%createIndex_inr. unfold keepsValidation.
  rewrite validationOf_insert. destruct (decide (coll = n)) as [<-|]; reflexivity.
Qed.

Lemma createIndex_extends coll keys options db db' :
  Server.createIndex coll keys options db = inr db' -> extends db db'.
Proof.
  intros (_ & ixs & -> & Hp & _)%createIndex_inr.
  apply extends_insert; [reflexivity | exact Hp].
Qed.

Lemma insert_keepsDocs coll d db db' n :
  n <> coll -> Server.insert coll d db = inr db' -> keepsDocs n db db'.
Proof.
  intros Hne (-> & _)%insert_inr. unfold keepsDocs.
  rewrite docsOf_insert. destruct (decide (coll = n)); [congruence | reflexivity].
Qed.

Lemma insert_keepsValidation coll d db db' n :
  Server.insert coll d db = inr db' -> keepsValidation n db db'.
Proof.
  intros (-> & _)%insert_inr. unfold keepsValidation.
  rewrite validationOf_insert. destruct (decide (coll = n)) as [<-|]; reflexivity.
Qed.

Lemma insert_extends coll d db db' :
  Server.insert coll d db = inr db' -> extends db db'.
Proof.
  intros (-> & _)%insert_inr.
  apply extends_insert; [apply prefix_app_r; reflexivity | apply indexesOf_implicit].
Qed.

(** *** What [ensureCollection] and the seed leave alone *)

Lemma ensureCollection_keepsDocs name schema indexes n :
  preserves (keepsDocs n) (ensureCollection name schema indexes).
Proof.
  apply preserves_ensureCollection; [apply _ | | |]; intros.
  - eapply createCollection_keepsDocs; eassumption.
  - eapply collMod_keepsDocs; eassumption.
  - eapply createIndex_keepsDocs; eassumption.
Qed.

Lemma ensureCollection_extends name schema indexes :
  preserves extends (ensureCollection name schema indexes).
Proof.
  apply preserves_ensureCollection; [apply _ | | |]; intros.
  - eapply createCollection_extends; eassumption.
  - eapply collMod_extends; eassumption.
  - eapply createIndex_extends; eassumption.
Qed.

Lemma ensureCollection_keepsValidation name schema indexes n :
  n <> name -> preserves (keepsValidation n) (ensureCollection name schema indexes).
Proof.
  intros Hne. apply preserves_ensureCollection; [apply _ | | |]; intros.
  - eapply createCollection_keepsValidation; eassumption.
  - eapply collMod_keepsValidation; eassumption.
  - eapply createIndex_keepsValidation; eassumption.
Qed.

Lemma seed_extends : preserves extends seed.
Proof. apply preserves_seed; [apply _|]. intros. eapply insert_extends; eassumption. Qed.

Lemma seed_keepsValidation n : preserves (keepsValidation n) seed.
Proof.
  apply preserves_seed; [apply _|]. intros. eapply insert_keepsValidation; eassumption.
Qed.

Lemma seed_keepsDocs n : n <> "users" -> n <> "tasks" -> preserves (keepsDocs n) seed.
Proof.
  intros H1 H2. apply preserves_seed; [apply _|].
  intros c d' db db' H [->| ->]; (eapply insert_keepsDocs; [|exact H]; assumption).
Qed.

(** *** One entry of the index loop *)

#[local] Arguments indexEvents : simpl never.

Lemma ensureIndex_unfold name idx w :
  ensureIndex name idx w =
  match Server.createIndex (indexTarget name (keysOf idx) (optionsOf idx))
                           (keysOf idx) (optionsOf idx) (colls w) with
  | inr db => mkRun (Done tt) (setColls w db) (indexEvents name idx)
  | inl e => mkRun (Thrown e) w (indexEvents name idx)
  end.
Proof.
  unfold ensureIndex, mbind, M_bind, bind, print, createIndex, call. simpl.
  destruct (Server.createIndex _ _ _ (colls w)); reflexivity.
Qed.

Lemma ensureIndex_trace name idx w : trace (ensureIndex name idx w) = indexEvents name idx.
Proof. rewrite ensureIndex_unfold. destruct (Server.createIndex _ _ _ _); reflexivity. Qed.

Lemma createIndex_noop coll keys options (db : gmap string Collection) :
  keys <> [] ->
  Server.requested keys options ∈ indexesOf coll db ->
  Server.createIndex coll keys options db = inr db.
Proof.
  intros Hk Hin. unfold Server.createIndex. destruct keys as [|kv keys]; [congruence|].
  unfold indexesOf, Server.implicit, Server.reachable in *.
  destruct (db !! coll) as [c|] eqn:Hc; [|inversion Hin]. cbn [negb].
  rewrite bool_decide_eq_true_2 by exact Hin.
  rewrite insert_id by exact Hc. reflexivity.
Qed.

Lemma ensured_extends name db db' idx :
  extends db db' -> ensured name db idx -> ensured name db' idx.
Proof.
  intros (_ & Hi & _) (Hk & Hin). split; [exact Hk|].
  destruct (Hi (indexTarget name (keysOf idx) (optionsOf idx))) as [k ->].
  apply elem_of_app. left. exact Hin.
Qed.

Lemma ensureIndex_Done name idx w :
  result (ensureIndex name idx w) = Done tt ->
  ensured name (colls (world (ensureIndex name idx w))) idx.
Proof.
  rewrite ensureIndex_unfold.
  destruct (Server.createIndex _ _ _ (colls w)) as [e|db] eqn:E; simpl; [discriminate|].
  intros _. apply createIndex_inr in E as (Hk & ixs & -> & _ & Hin).
  split; [exact Hk|]. rewrite indexesOf_insert, decide_True by reflexivity. exact Hin.
Qed.

Lemma ensureIndex_stable name idx w :
  ensured name (colls w) idx ->
  ensureIndex name idx w = mkRun (Done tt) w (indexEvents name idx).
Proof.
  intros (Hk & Hin). rewrite ensureIndex_unfold, createIndex_noop by assumption.
  rewrite setColls_same. reflexivity.
Qed.

Lemma ensureIndex_Thrown name idx w e :
  result (ensureIndex name idx w) = Thrown e -> world (ensureIndex name idx w) = w.
Proof.
  rewrite ensureIndex_unfold.
  destruct (Server.createIndex _ _ _ (colls w)); simpl; [reflexivity | discriminate].
Qed.

(** The outcome of an entry depends on the database only. *)
Lemma ensureIndex_ext name idx w w' :
  colls w = colls w' ->
  result (ensureIndex name idx w') = result (ensureIndex name idx w)
  /\ colls (world (ensureIndex name idx w')) = colls (world (ensureIndex name idx w)).
Proof.
  intros H. rewrite !ensureIndex_unfold, H.
  destruct (Server.createIndex _ _ _ (colls w')); simpl; auto.
Qed.

(** *** The index loop *)

Lemma ensureIndexes_extends name l : preserves extends (forEach l (ensureIndex name)).
Proof.
  apply preserves_forEach; [apply _|]. intros idx _ w.
  rewrite ensureIndex_unfold.
  destruct (Server.createIndex _ _ _ (colls w)) eqn:E; simpl; [reflexivity|].
  eapply createIndex_extends, E.
Qed.

Lemma ensureIndexes_Done name l w :
  result (forEach l (ensureIndex name) w) = Done tt ->
  Forall (ensured name (colls (world (forEach l (ensureIndex name) w)))) l.
Proof.
  revert w. induction l as [|idx r IH]; intros w H; [constructor|].
  simpl in *. pose proof (bind_inv (ensureIndex name idx) (fun _ => forEach r (ensureIndex name)) w) as B.
  destruct (result (ensureIndex name idx w)) as [[]|e] eqn:E.
  - destruct B as (Hr & Hw & _). rewrite Hr in H. rewrite Hw. constructor.
    + eapply ensured_extends; [apply ensureIndexes_extends|]. apply ensureIndex_Done, E.
    + apply IH, H.
  - destruct B as (Hr & _). rewrite Hr in H. discriminate.
Qed.

Lemma ensureIndexes_stable name l w :
  Forall (ensured name (colls w)) l ->
  forEach l (ensureIndex name) w = mkRun (Done tt) w (flat_map (indexEvents name) l).
Proof.
  induction 1 as [|idx r Hx Hr IH]; [reflexivity|].
  simpl. unfold mbind, M_bind, bind. rewrite ensureIndex_stable by exact Hx. simpl.
  rewrite IH. reflexivity.
Qed.

(** The calls of the loop follow the list; a throw cuts them short. *)
Lemma ensureIndexes_trace name l w :
  match result (forEach l (ensureIndex name) w) with
  | Done _ => trace (forEach l (ensureIndex name) w) = flat_map (indexEvents name) l
  | Thrown _ => trace (forEach l (ensureIndex name) w) `prefix_of` flat_map (indexEvents name) l
  end.
Proof.
  revert w. induction l as [|idx r IH]; intros w; [reflexivity|].
  change (flat_map (indexEvents name) (idx :: r))
    with (indexEvents name idx ++ flat_map (indexEvents name) r).
  cbn [forEach].
  pose proof (bind_inv (ensureIndex name idx) (fun _ => forEach r (ensureIndex name)) w) as B.
  pose proof (ensureIndex_trace name idx w) as T.
  destruct (result (ensureIndex name idx w)) as [[]|e] eqn:E.
  - destruct B as (-> & _ & ->). rewrite T. specialize (IH (world (ensureIndex name idx w))).
    destruct (result (forEach r _ _)).
    + rewrite IH. reflexivity.
    + apply prefix_app, IH.
  - destruct B as (-> & _ & ->). rewrite T. apply prefix_app_r. reflexivity.
Qed.

(** Running the loop again on the database it left gives the same outcome
    and changes nothing: entries already ensured are passed over. *)
Lemma ensureIndexes_replay name l w w' :
  colls w' = colls (world (forEach l (ensureIndex name) w)) ->
  result (forEach l (ensureIndex name) w') = result (forEach l (ensureIndex name) w)
  /\ colls (world (forEach l (ensureIndex name) w')) = colls w'
  /\ trace (forEach l (ensureIndex name) w') = trace (forEach l (ensureIndex name) w).
Proof.
  revert w w'. induction l as [|idx r IH]; intros w w' H; [simpl; auto|].
  simpl in *.
  pose proof (bind_inv (ensureIndex name idx) (fun _ => forEach r (ensureIndex name)) w) as B.
  pose proof (bind_inv (ensureIndex name idx) (fun _ => forEach r (ensureIndex name)) w') as B'.
  destruct (result (ensureIndex name idx w)) as [[]|e] eqn:E.
  - destruct B as (Hr & Hw & Ht). rewrite Hw in H.
    assert (Hs : ensured name (colls w') idx).
    { rewrite H. eapply ensured_extends; [apply ensureIndexes_extends|].
      apply ensureIndex_Done, E. }
    rewrite (ensureIndex_stable _ _ _ Hs) in B'. simpl in B'.
    destruct B' as (Hr' & Hw' & Ht').
    destruct (IH (world (ensureIndex name idx w)) w' H) as (I1 & I2 & I3).
    rewrite Hr, Hr', Hw', Ht, Ht', I3, ensureIndex_trace. auto.
  - destruct B as (Hr & Hw & Ht). rewrite Hw, (ensureIndex_Thrown _ _ _ _ E) in H.
    destruct (ensureIndex_ext name idx w w' (eq_sym H)) as (X1 & X2).
    rewrite E in X1. rewrite X1 in B'. destruct B' as (Hr' & Hw' & Ht').
    rewrite Hr, Hr', Hw', Ht, Ht', !ensureIndex_trace.
    rewrite (ensureIndex_Thrown _ _ _ _ X1). auto.
Qed.


(** *** [ensureCollection] as a whole *)

(** The validator step is refused exactly as [refusal] says, and an
    accepted step leaves [withValidator]. *)
Lemma validatorCall_refusal name v db :
  validatorCall name v db
  = match refusal name (validator v) db with
    | Some e => inl e
    | None => inr (withValidator name v db)
    end.
Proof.
  unfold validatorCall, refusal, Server.reachable, withValidator, docsOf, Server.implicit,
    Server.collMod, Server.createCollection, Server.emptyCollection.
  destruct (db !! name) as [c|] eqn:Hc; cbn [negb].
  - destruct (negb (Server.wellFormed (validator v))); reflexivity.
  - destruct (negb (Server.validName name)); [reflexivity|].
    destruct (negb (Server.wellFormed (validator v))); reflexivity.
Qed.

Lemma ensureCollection_unfold name schema indexes w :
  ensureCollection name schema indexes w =
  match refusal name schema (colls w) with
  | Some e => mkRun (Thrown e) w (validatorEvents name schema (existsColl name (colls w)))
  | None =>
      let r := ensureIndexes name indexes
                 (setColls w (withValidator name (mkValidation schema Moderate Error) (colls w))) in
      mkRun (result r) (world r)
            (validatorEvents name schema (existsColl name (colls w)) ++ trace r)
  end.
Proof.
  pose proof (validatorCall_refusal name (mkValidation schema Moderate Error) (colls w)) as V.
  cbn [validator] in V.
  unfold ensureCollection, mbind, M_bind, bind, getCollectionInfos, existsColl,
    runCommand, createCollection, print, call.
  unfold validatorCall in V. cbn [result world trace].
  destruct (colls w !! name) as [c|] eqn:Hc; cbn [length Nat.eqb result world trace];
    rewrite V; destruct (refusal name schema (colls w)); reflexivity.
Qed.

Lemma refusal_present name schema (db : gmap string Collection) :
  existsColl name db = true ->
  refusal name schema db = if Server.wellFormed schema then None else Some FailedToParse.
Proof.
  unfold refusal, Server.reachable, existsColl.
  destruct (db !! name); [|discriminate]. intros _. cbn [negb].
  destruct (Server.wellFormed schema); reflexivity.
Qed.

Lemma validationOf_exists name v (db : gmap string Collection) :
  validationOf name db = Some v -> existsColl name db = true.
Proof. unfold validationOf, existsColl. destruct (db !! name); [reflexivity|discriminate]. Qed.

Lemma withValidator_validation name v db : validationOf name (withValidator name v db) = Some v.
Proof. unfold withValidator. rewrite validationOf_insert, decide_True by reflexivity. reflexivity. Qed.

Lemma withValidator_id name v (db : gmap string Collection) :
  validationOf name db = Some v -> withValidator name v db = db.
Proof.
  unfold validationOf, withValidator, docsOf, Server.implicit.
  destruct (db !! name) as [c|] eqn:Hc; [|discriminate].
  intros Hv. apply insert_id. rewrite Hc. destruct c; simpl in *. congruence.
Qed.

Lemma withValidator_keepsDocs name v db n : keepsDocs n db (withValidator name v db).
Proof.
  unfold keepsDocs, withValidator. rewrite docsOf_insert.
  destruct (decide (name = n)) as [<-|]; reflexivity.
Qed.

Lemma ensureIndexes_keepsValidation name indexes n :
  preserves (keepsValidation n) (ensureIndexes name indexes).
Proof.
  unfold ensureIndexes. destruct indexes as [l|]; [|apply preserves_ret; apply _].
  apply preserves_forEach; [apply _|]. intros idx _ w. rewrite ensureIndex_unfold.
  destruct (Server.createIndex _ _ _ (colls w)) eqn:E; simpl; [reflexivity|].
  eapply createIndex_keepsValidation, E.
Qed.

(** A refused validator step ends the call: nothing is changed and no
    index call is made. *)
Lemma ensureCollection_refused name schema indexes w e :
  refusal name schema (colls w) = Some e ->
  ensureCollection name schema indexes w
  = mkRun (Thrown e) w (validatorEvents name schema (existsColl name (colls w))).
Proof. intros H. rewrite ensureCollection_unfold, H. reflexivity. Qed.

Lemma ensureCollection_validation name schema indexes w :
  refusal name schema (colls w) = None ->
  validationOf name (colls (world (ensureCollection name schema indexes w)))
  = Some (mkValidation schema Moderate Error).
Proof.
  intros H. rewrite ensureCollection_unfold, H. simpl.
  rewrite (ensureIndexes_keepsValidation name indexes name (setColls w _)).
  apply withValidator_validation.
Qed.

Lemma ensureCollection_accepted name schema indexes w :
  result (ensureCollection name schema indexes w) = Done tt ->
  refusal name schema (colls w) = None.
Proof.
  rewrite ensureCollection_unfold. destruct (refusal name schema (colls w)); [discriminate|].
  reflexivity.
Qed.

Lemma ensureCollection_Done name schema l w :
  result (ensureCollection name schema (Some l) w) = Done tt ->
  Forall (ensured name (colls (world (ensureCollection name schema (Some l) w)))) l.
Proof.
  rewrite ensureCollection_unfold. destruct (refusal name schema (colls w)); [discriminate|].
  simpl. apply ensureIndexes_Done.
Qed.

Lemma ensureCollection_stable name schema l w :
  Server.wellFormed schema = true ->
  validationOf name (colls w) = Some (mkValidation schema Moderate Error) ->
  Forall (ensured name (colls w)) l ->
  result (ensureCollection name schema (Some l) w) = Done tt
  /\ world (ensureCollection name schema (Some l) w) = w.
Proof.
  intros Hwf Hv Hl. rewrite ensureCollection_unfold.
  rewrite (refusal_present _ _ _ (validationOf_exists _ _ _ Hv)), Hwf. simpl.
  rewrite (withValidator_id _ _ _ Hv), setColls_same.
  rewrite (ensureIndexes_stable _ _ _ Hl). auto.
Qed.

Lemma ensureIndexes_replay' name indexes w w' :
  colls w' = colls (world (ensureIndexes name indexes w)) ->
  result (ensureIndexes name indexes w') = result (ensureIndexes name indexes w)
  /\ colls (world (ensureIndexes name indexes w')) = colls w'
  /\ trace (ensureIndexes name indexes w') = trace (ensureIndexes name indexes w).
Proof.
  destruct indexes as [l|]; simpl; [apply ensureIndexes_replay | auto].
Qed.

Lemma validatorEvents_calls name schema b : createIndexCalls (validatorEvents name schema b) = [].
Proof. destruct b; reflexivity. Qed.

Lemma validatorEvents_length name schema b : length (validatorEvents name schema b) = 3.
Proof. destruct b; reflexivity. Qed.

(** A second [ensureCollection] on the database the first one left, whether
    the first returned or threw, has the same outcome and changes nothing. *)
Lemma ensureCollection_replay name schema indexes w w' :
  colls w' = colls (world (ensureCollection name schema indexes w)) ->
  result (ensureCollection name schema indexes w')
  = result (ensureCollection name schema indexes w)
  /\ colls (world (ensureCollection name schema indexes w')) = colls w'
  /\ createIndexCalls (trace (ensureCollection name schema indexes w'))
     = createIndexCalls (trace (ensureCollection name schema indexes w)).
Proof.
  intros H. destruct (refusal name schema (colls w)) as [e|] eqn:R.
  - rewrite (ensureCollection_refused _ _ _ _ _ R) in *. cbn [result world trace] in *.
    assert (R' : refusal name schema (colls w') = Some e).
    { rewrite H. exact R. }
    rewrite (ensureCollection_refused _ _ _ _ _ R'). cbn [result world trace].
    rewrite !validatorEvents_calls. auto.
  - assert (Hv : validationOf name (colls w') = Some (mkValidation schema Moderate Error)).
    { rewrite H. apply ensureCollection_validation, R. }
    assert (R' : refusal name schema (colls w') = None).
    { rewrite (refusal_present _ _ _ (validationOf_exists _ _ _ Hv)).
      unfold refusal in R. destruct (negb (Server.reachable (colls w) name)); [discriminate|].
      destruct (Server.wellFormed schema); [reflexivity|discriminate]. }
    rewrite !ensureCollection_unfold in *. rewrite R in *. rewrite R'. simpl in *.
    rewrite (withValidator_id _ _ _ Hv), setColls_same.
    destruct (ensureIndexes_replay' name indexes _ w' H) as (R1 & R2 & R3).
    rewrite R1, R2, R3. repeat split.
    unfold createIndexCalls. rewrite !omap_app. f_equal.
    unfold validatorEvents. destruct (existsColl name (colls w')), (existsColl name (colls w));
      reflexivity.
Qed.

Lemma ensureIndexes_trace' name indexes w :
  match result (ensureIndexes name indexes w) with
  | Done _ => trace (ensureIndexes name indexes w) = flat_map (indexEvents name) (entries indexes)
  | Thrown _ => trace (ensureIndexes name indexes w)
                `prefix_of` flat_map (indexEvents name) (entries indexes)
  end.
Proof. destruct indexes as [l|]; simpl; [apply ensureIndexes_trace | reflexivity]. Qed.

Lemma ensureIndexes_prefix name indexes w :
  trace (ensureIndexes name indexes w) `prefix_of` flat_map (indexEvents name) (entries indexes).
Proof.
  pose proof (ensureIndexes_trace' name indexes w) as H.
  destruct (result (ensureIndexes name indexes w)); [rewrite H; reflexivity | exact H].
Qed.

Lemma indexEvents_all name l : Forall (fun e => isIndexEvent e = true) (flat_map (indexEvents name) l).
Proof.
  induction l as [|idx r IH]; [constructor|].
  change (flat_map (indexEvents name) (idx :: r))
    with (indexEvents name idx ++ flat_map (indexEvents name) r).
  apply Forall_app. split; [|exact IH]. repeat constructor.
Qed.

Lemma indexEvents_calls name l :
  createIndexCalls (flat_map (indexEvents name) l) = map (indexCall name) l.
Proof.
  induction l as [|idx r IH]; [reflexivity|].
  change (flat_map (indexEvents name) (idx :: r))
    with (indexEvents name idx ++ flat_map (indexEvents name) r).
  unfold createIndexCalls in *. rewrite omap_app, IH. reflexivity.
Qed.

Lemma createIndexCalls_prefix t t' :
  t `prefix_of` t' -> createIndexCalls t `prefix_of` createIndexCalls t'.
Proof. intros [k ->]. unfold createIndexCalls. rewrite omap_app. apply prefix_app_r. reflexivity. Qed.

(** The trace of a call: the three events of the validator step, then
    index events only. *)
Lemma ensureCollection_events name schema indexes w :
  exists rest,
    trace (ensureCollection name schema indexes w)
    = validatorEvents name schema (existsColl name (colls w)) ++ rest
    /\ Forall (fun e => isIndexEvent e = true) rest
    /\ (refusal name schema (colls w) <> None -> rest = []).
Proof.
  rewrite ensureCollection_unfold. destruct (refusal name schema (colls w)) as [e|].
  - exists []. cbn [trace]. rewrite app_nil_r. repeat split. constructor.
  - cbn [trace]. eexists. split; [reflexivity|]. split; [|congruence].
    destruct (ensureIndexes_prefix name indexes
                (setColls w (withValidator name (mkValidation schema Moderate Error) (colls w))))
      as [k Hk].
    pose proof (indexEvents_all name (entries indexes)) as Hall.
    rewrite Hk in Hall. apply Forall_app in Hall. apply Hall.
Qed.

(** C5, as the code has it: [ensureCollection] looks the collection up and
    then, with the schema as validator, level "moderate" and action
    "error", asks the server to create the collection when it is absent and
    to [collMod] it when it is present; no other collection call is made.
    When the server accepts that call the collection carries the validator
    from then on; when it refuses it (a name it cannot create, a validator
    it cannot parse) the call throws the server's error at once, no index
    call is made and the database is as it was.  Either way no collection is
    dropped and no document of any collection is altered. *)
Theorem ensureCollection_validator name schema indexes w :
  let r := ensureCollection name schema indexes w in
  let v := mkValidation schema Moderate Error in
  firstn 3 (trace r)
  = (if existsColl name (colls w)
     then [EvGetCollectionInfos name; EvPrint (MsgUpdating name);
           EvRunCommand (collMod name v)]
     else [EvGetCollectionInfos name; EvPrint (MsgCreating name);
           EvCreateCollection name v])
  /\ Forall (fun e => isIndexEvent e = true) (skipn 3 (trace r))
  /\ match validatorCall name v (colls w) with
     | inr db1 =>
         validationOf name db1 = Some v
         /\ validationOf name (colls (world r)) = Some v
     | inl e =>
         result r = Thrown e /\ world r = w /\ skipn 3 (trace r) = []
     end
  /\ validatorCall name v (colls w)
     = (if negb (existsColl name (colls w) || Server.validName name) then inl InvalidNamespace
        else if negb (Server.wellFormed schema) then inl FailedToParse
        else inr (withValidator name v (colls w)))
  /\ (forall n, docsOf n (colls (world r)) = docsOf n (colls w))
  /\ dom (colls w) ⊆ dom (colls (world r)).
Proof.
  intros r v.
  destruct (ensureCollection_events name schema indexes w) as (rest & Ht & Hall & Hnil).
  fold r in Ht.
  assert (Hskip : skipn 3 (trace r) = rest).
  { rewrite Ht, skipn_app, validatorEvents_length. simpl.
    rewrite skipn_all2 by (rewrite validatorEvents_length; lia). reflexivity. }
  split; [|split; [|split; [|split; [|split]]]].
  - rewrite Ht, firstn_app, validatorEvents_length. simpl.
    rewrite firstn_all2 by (rewrite validatorEvents_length; lia).
    rewrite app_nil_r. reflexivity.
  - rewrite Hskip. exact Hall.
  - rewrite validatorCall_refusal. subst v. cbn [validator].
    destruct (refusal name schema (colls w)) as [e|] eqn:R.
    + rewrite Hskip. subst r. rewrite (ensureCollection_refused _ _ _ _ _ R).
      repeat split. apply Hnil. congruence.
    + split; [apply withValidator_validation|].
      apply (ensureCollection_validation name schema indexes w R).
  - rewrite validatorCall_refusal. subst v. cbn [validator].
    unfold refusal, Server.reachable, existsColl.
    destruct (colls w !! name); cbn [negb orb];
      destruct (negb (Server.validName name)), (negb (Server.wellFormed schema)); reflexivity.
  - intros n. apply (ensureCollection_keepsDocs name schema indexes n w).
  - apply (ensureCollection_extends name schema indexes w).
Qed.

(** C5 as stated fails: the server refuses a validator with the [default]
    keyword, so the call for [users] with the script's own schema creates
    nothing on an empty database and leaves an existing [users] without
    the validator; and it refuses a collection without a name, whatever
    the schema. *)
Lemma refused_validator_is_not_attached :
  let r := ensureCollection "users" usersSchema (Some usersIndexes) emptyWorld in
  let r' := ensureCollection "users" usersSchema (Some usersIndexes) usersOnly in
  let r'' := ensureCollection "" [bsonType [TObject]] None emptyWorld in
  Server.wellFormed usersSchema = false
  /\ result r = Thrown FailedToParse
  /\ colls (world r) = ∅
  /\ existsColl "users" (colls (world r)) = false
  /\ trace r = [EvGetCollectionInfos "users"; EvPrint (MsgCreating "users");
                EvCreateCollection "users" (mkValidation usersSchema Moderate Error)]
  /\ result r' = Thrown FailedToParse
  /\ validationOf "users" (colls (world r')) = None
  /\ trace r' = [EvGetCollectionInfos "users"; EvPrint (MsgUpdating "users");
                 EvRunCommand (collMod "users" (mkValidation usersSchema Moderate Error))]
  /\ result r'' = Thrown InvalidNamespace
  /\ colls (world r'') = ∅.
Proof. vm_compute. repeat split; reflexivity. Qed.

(** C6: in a call of [ensureCollection] the validator step comes first and
    every [createIndex] call after it; an index call is issued only when
    the server accepted the validator step, on a collection that carries
    the validator from then on (a refused step ends the call before the
    first index call).  A re-invocation on the database the call left,
    whether it returned or threw partway through the indexes, changes
    nothing and ends as the first did, after the same [createIndex] calls:
    it passes over the indexes already ensured and stops only where the
    first call stopped. *)
Theorem ensureCollection_order_and_resume name schema indexes w :
  let r := ensureCollection name schema indexes w in
  let r' := ensureCollection name schema indexes (world r) in
  let v := mkValidation schema Moderate Error in
  (exists rest,
      trace r = validatorEvents name schema (existsColl name (colls w)) ++ rest
      /\ createIndexCalls (validatorEvents name schema (existsColl name (colls w))) = []
      /\ Forall (fun e => isIndexEvent e = true) rest)
  /\ match validatorCall name v (colls w) with
     | inr db1 =>
         validationOf name db1 = Some v
         /\ validationOf name (colls (world r)) = Some v
     | inl e => result r = Thrown e /\ createIndexCalls (trace r) = []
     end
  /\ result r' = result r
  /\ colls (world r') = colls (world r)
  /\ createIndexCalls (trace r') = createIndexCalls (trace r).
Proof.
  intros r r' v. split; [|split].
  - destruct (ensureCollection_events name schema indexes w) as (rest & Ht & Hall & _).
    exists rest. split; [exact Ht|]. split; [apply validatorEvents_calls | exact Hall].
  - rewrite validatorCall_refusal. subst v. cbn [validator].
    destruct (refusal name schema (colls w)) as [e|] eqn:R.
    + subst r. rewrite (ensureCollection_refused _ _ _ _ _ R). cbn [result trace].
      split; [reflexivity | apply validatorEvents_calls].
    + split; [apply withValidator_validation|].
      apply (ensureCollection_validation name schema indexes w R).
  - apply (ensureCollection_replay name schema indexes w (world r)). reflexivity.
Qed.

(** The target of an entry: its own [collection] option when that and the
    index name are non-empty, the [name] argument otherwise. *)
Lemma indexTarget_cases arg1 keys options :
  indexTarget arg1 keys options
  = match opt_collection options with
    | Some c => if truthy (indexName keys options) && truthy c then c else arg1
    | None => arg1
    end.
Proof.
  unfold indexTarget, or_else.
  destruct (truthy (indexName keys options)), (opt_collection options) as [c|];
    simpl; try reflexivity.
Qed.

(** C3, as the code has it: the [createIndex] calls of a call that returns
    are, in order, one for each entry of [indexes], with the keys and the
    options of the entry, on the collection the entry's [collection] option
    names when that option and the index name are non-empty, and on the
    collection of the [name] argument otherwise; the calls of a call that
    throws are a prefix of these.  No entry of the fixed users and tasks
    configurations has a [collection] option: each of their indexes lands on
    its own collection. *)
Theorem ensureCollection_index_calls name schema l w :
  let r := ensureCollection name schema (Some l) w in
  match result r with
  | Done _ => createIndexCalls (trace r) = map (indexCall name) l
  | Thrown _ => createIndexCalls (trace r) `prefix_of` map (indexCall name) l
  end
  /\ Forall (fun idx =>
       indexCall name idx
       = (match opt_collection (optionsOf idx) with
          | Some c => if truthy (indexName (keysOf idx) (optionsOf idx)) && truthy c
                      then c else name
          | None => name
          end, keysOf idx, optionsOf idx)) l
  /\ map (indexCall "users") usersIndexes
     = map (fun idx => ("users", keysOf idx, optionsOf idx)) usersIndexes
  /\ map (indexCall "tasks") tasksIndexes
     = map (fun idx => ("tasks", keysOf idx, optionsOf idx)) tasksIndexes.
Proof.
  intros r. split; [|split; [|split]].
  - subst r. rewrite ensureCollection_unfold.
    destruct (refusal name schema (colls w)) as [e|].
    { cbn [result trace]. rewrite validatorEvents_calls. apply prefix_nil. }
    simpl.
    set (w1 := setColls w _).
    pose proof (ensureIndexes_trace name l w1) as T.
    unfold createIndexCalls at 1 2. rewrite omap_app.
    fold (createIndexCalls (validatorEvents name schema (existsColl name (colls w)))).
    rewrite validatorEvents_calls. simpl.
    destruct (result (forEach l (ensureIndex name) w1)).
    + rewrite T. apply indexEvents_calls.
    + rewrite <- indexEvents_calls. apply createIndexCalls_prefix, T.
  - apply Forall_forall. intros idx _. unfold indexCall.
    rewrite indexTarget_cases. reflexivity.
  - reflexivity.
  - reflexivity.
Qed.

(** C3 as stated fails: an entry whose options name another collection is
    created there, not on the collection of the [name] argument.  The
    schema is one the server accepts, so the call reaches the loop. *)
Lemma stray_index_lands_elsewhere :
  let r := ensureCollection "users" [bsonType [TObject]] (Some [strayIndex]) emptyWorld in
  Server.wellFormed [bsonType [TObject]] = true
  /\ createIndexCalls (trace r) = [("tasks", keysOf strayIndex, optionsOf strayIndex)]
  /\ ~ In ("users", keysOf strayIndex, optionsOf strayIndex) (createIndexCalls (trace r))
  /\ result r = Done tt
  /\ map ix_name (indexesOf "tasks" (colls (world r))) = ["_id_"; "idx_title"]
  /\ map ix_name (indexesOf "users" (colls (world r))) = ["_id_"].
Proof.
  vm_compute. repeat split; try reflexivity.
  intros [H|[]]. discriminate H.
Qed.

(** *** The script, phase by phase *)

#[local] Arguments seedUser : simpl never.
#[local] Arguments seedTasks : simpl never.
#[local] Arguments storedTasks : simpl never.
#[local] Arguments usersSchema : simpl never.
#[local] Arguments tasksSchema : simpl never.
#[local] Arguments usersIndexes : simpl never.
#[local] Arguments tasksIndexes : simpl never.
#[local] Arguments validate : simpl never.
#[local] Arguments Server.insert : simpl never.
#[local] Arguments Server.insertAll : simpl never.
#[local] Arguments ensureCollection : simpl never.
#[local] Arguments seed : simpl never.
#[local] Arguments script : simpl never.

Lemma ensureIndexes_shell name indexes w :
  shellOf (world (ensureIndexes name indexes w)) = shellOf w.
Proof.
  destruct indexes as [l|]; simpl; [|reflexivity].
  revert w. induction l as [|idx r IH]; intros w; [reflexivity|].
  simpl. pose proof (bind_inv (ensureIndex name idx) (fun _ => forEach r (ensureIndex name)) w) as B.
  assert (S1 : shellOf (world (ensureIndex name idx w)) = shellOf w).
  { rewrite ensureIndex_unfold. destruct (Server.createIndex _ _ _ _); reflexivity. }
  destruct (result (ensureIndex name idx w)).
  - destruct B as (_ & -> & _). rewrite IH. exact S1.
  - destruct B as (_ & -> & _). exact S1.
Qed.

Lemma ensureCollection_shell name schema indexes w :
  shellOf (world (ensureCollection name schema indexes w)) = shellOf w.
Proof.
  rewrite ensureCollection_unfold. destruct (refusal name schema (colls w)); [reflexivity|].
  simpl. rewrite ensureIndexes_shell. reflexivity.
Qed.

Lemma sequence_unfold (eu et sd : M unit) w :
  let ru := eu w in
  let rt := et (world ru) in
  let rs := sd (world rt) in
  (currentDb ← getName;
   print (MsgInitializing currentDb);; eu;; et;; sd;; print MsgCompleted) w =
  match result ru with
  | Thrown e => mkRun (Thrown e) (world ru) (EvPrint (MsgInitializing (dbName w)) :: trace ru)
  | Done _ =>
      match result rt with
      | Thrown e => mkRun (Thrown e) (world rt)
                          (EvPrint (MsgInitializing (dbName w)) :: trace ru ++ trace rt)
      | Done _ =>
          match result rs with
          | Thrown e => mkRun (Thrown e) (world rs)
                              (EvPrint (MsgInitializing (dbName w))
                                 :: trace ru ++ trace rt ++ trace rs)
          | Done _ => mkRun (Done tt) (world rs)
                            (EvPrint (MsgInitializing (dbName w))
                               :: trace ru ++ trace rt ++ trace rs ++ [EvPrint MsgCompleted])
          end
      end
  end.
Proof.
  intros ru rt rs. unfold mbind, M_bind, bind, getName, print. simpl.
  fold ru. destruct (result ru); [|reflexivity]. simpl.
  fold rt. destruct (result rt); [|reflexivity]. simpl.
  fold rs. destruct (result rs); reflexivity.
Qed.

Lemma script_unfold w :
  let ru := ensureCollection "users" usersSchema (Some usersIndexes) w in
  let rt := ensureCollection "tasks" tasksSchema (Some tasksIndexes) (world ru) in
  let rs := seed (world rt) in
  script w =
  match result ru with
  | Thrown e => mkRun (Thrown e) (world ru) (EvPrint (MsgInitializing (dbName w)) :: trace ru)
  | Done _ =>
      match result rt with
      | Thrown e => mkRun (Thrown e) (world rt)
                          (EvPrint (MsgInitializing (dbName w)) :: trace ru ++ trace rt)
      | Done _ =>
          match result rs with
          | Thrown e => mkRun (Thrown e) (world rs)
                              (EvPrint (MsgInitializing (dbName w))
                                 :: trace ru ++ trace rt ++ trace rs)
          | Done _ => mkRun (Done tt) (world rs)
                            (EvPrint (MsgInitializing (dbName w))
                               :: trace ru ++ trace rt ++ trace rs ++ [EvPrint MsgCompleted])
          end
      end
  end.
Proof.
  exact (sequence_unfold (ensureCollection "users" usersSchema (Some usersIndexes))
                         (ensureCollection "tasks" tasksSchema (Some tasksIndexes)) seed w).
Qed.

(** The server refuses both schemas of the script: each carries a
    [default] keyword, under [isActive] and under [isDeleted]. *)
Lemma schemas_not_wellFormed :
  Server.wellFormed usersSchema = false /\ Server.wellFormed tasksSchema = false.
Proof. split; vm_compute; reflexivity. Qed.

Lemma usersSchema_refused db : refusal "users" usersSchema db = Some FailedToParse.
Proof.
  unfold refusal, Server.reachable.
  assert (Hn : Server.validName "users" = true) by (vm_compute; reflexivity).
  rewrite (proj1 schemas_not_wellFormed), Hn. destruct (db !! "users"); reflexivity.
Qed.

(** Every run ends at the validator step of [users]: the server refuses
    the schema, the call throws, and the database is as it was. *)
Lemma script_throws w :
  script w
  = mkRun (Thrown FailedToParse) w
          (EvPrint (MsgInitializing (dbName w))
             :: validatorEvents "users" usersSchema (existsColl "users" (colls w))).
Proof.
  rewrite script_unfold. cbv zeta.
  rewrite (ensureCollection_refused "users" usersSchema (Some usersIndexes) w FailedToParse
             (usersSchema_refused (colls w))).
  reflexivity.
Qed.

Lemma violates_empty c d : coll_docs c = [] -> Server.violates c d = false.
Proof.
  intros H. unfold Server.violates. rewrite H.
  induction (coll_indexes c) as [|ix r IH]; [reflexivity|].
  simpl. rewrite andb_false_r. exact IH.
Qed.

Lemma seedUser_valid now uid : validate usersSchema (VObject (seedUser now uid)) = true.
Proof. vm_compute. reflexivity. Qed.

Lemma seedTasks_valid now uid :
  forallb (fun d => validate tasksSchema (VObject d)) (seedTasks now uid) = true
  /\ forallb (fun d => validate tasksSchema (VObject d)) (storedTasks now uid) = true.
Proof. split; vm_compute; reflexivity. Qed.

(** Seeding the user into an empty [users] under the script's validator
    cannot fail. *)
(** Seeding the user into an empty [users] that carries no validator
    cannot fail. *)
Lemma insert_seedUser db now uid :
  docsOf "users" db = [] ->
  validationOf "users" db = None ->
  exists db', Server.insert "users" (seedUser now uid) db = inr db'
              /\ docsOf "users" db' = [seedUser now uid].
Proof.
  intros Hd Hv. unfold Server.insert.
  assert (N0 : negb (Server.reachable db "users") = false).
  { unfold Server.reachable. destruct (db !! "users"); [reflexivity | vm_compute; reflexivity]. }
  assert (R0 : Server.rejected (Server.implicit db "users") (seedUser now uid) = false).
  { unfold Server.rejected. rewrite validationOf_implicit, Hv. reflexivity. }
  assert (V0 : Server.violates (Server.implicit db "users") (seedUser now uid) = false).
  { apply violates_empty. rewrite docsOf_implicit. exact Hd. }
  rewrite N0, R0, V0. eexists. split; [reflexivity|].
  rewrite docsOf_insert, decide_True by reflexivity. simpl.
  rewrite docsOf_implicit, Hd. reflexivity.
Qed.

Lemma withIds_seedTasks now uid w0 :
  withIds (seedTasks now uid) w0
  = mkRun (Done (stored (nextOid w0) (seedTasks now uid)))
          (mkWorld (dbName w0) (colls w0) (N.succ (N.succ (nextOid w0))) (clock w0)) [].
Proof. reflexivity. Qed.

Lemma withId_seedUser now uid : withId (seedUser now uid) = ret (seedUser now uid).
Proof. reflexivity. Qed.

Lemma bind_eq {A B : Type} (m : M A) (f : A -> M B) (w : World) :
  (m ≫= f) w
  = match result (m w) with
    | Done a => mkRun (result (f a (world (m w)))) (world (f a (world (m w))))
                      (trace (m w) ++ trace (f a (world (m w))))
    | Thrown e => mkRun (Thrown e) (world (m w)) (trace (m w))
    end.
Proof. reflexivity. Qed.

Lemma countDocuments_docsOf n db : Server.countDocuments n db = length (docsOf n db).
Proof. unfold Server.countDocuments, docsOf. destruct (db !! n); reflexivity. Qed.

Lemma insertOne_seedUser now uid w0 :
  insertOne "users" (seedUser now uid) w0
  = match Server.insert "users" (seedUser now uid) (colls w0) with
    | inr db => mkRun (Done tt) (setColls w0 db) [EvInsertOne "users" (seedUser now uid)]
    | inl e => mkRun (Thrown e) w0 [EvInsertOne "users" (seedUser now uid)]
    end.
Proof.
  unfold insertOne. rewrite withId_seedUser, bind_eq. cbn [ret result world trace].
  unfold call. destruct (Server.insert "users" (seedUser now uid) (colls w0)); reflexivity.
Qed.

Lemma insertMany_seedTasks now uid w0 :
  insertMany "tasks" (seedTasks now uid) w0
  = mkRun (match fst (Server.insertAll "tasks" (stored (nextOid w0) (seedTasks now uid))
                        (colls w0)) with
           | None => Done tt
           | Some e => Thrown e
           end)
          (mkWorld (dbName w0)
                   (snd (Server.insertAll "tasks" (stored (nextOid w0) (seedTasks now uid))
                           (colls w0)))
                   (N.succ (N.succ (nextOid w0))) (clock w0))
          [EvInsertMany "tasks" (seedTasks now uid)].
Proof.
  unfold insertMany. rewrite bind_eq, withIds_seedTasks. cbn [result world trace].
  unfold bulk. cbn [colls].
  destruct (Server.insertAll "tasks" _ (colls w0)) as [[e|] db2]; reflexivity.
Qed.

Lemma seed_unfold w :
  seed w =
  match docsOf "users" (colls w) with
  | _ :: _ => mkRun (Done tt) w [EvCountDocuments "users"]
  | [] =>
      let now := clock w in
      let uid := nextOid w in
      match Server.insert "users" (seedUser now uid) (colls w) with
      | inl e =>
          mkRun (Thrown e) (mkWorld (dbName w) (colls w) (N.succ uid) now)
                [EvCountDocuments "users"; EvPrint MsgSeedingUser;
                 EvInsertOne "users" (seedUser now uid)]
      | inr db1 =>
          mkRun (match fst (Server.insertAll "tasks" (storedTasks now uid) db1) with
                 | None => Done tt
                 | Some e => Thrown e
                 end)
                (mkWorld (dbName w) (snd (Server.insertAll "tasks" (storedTasks now uid) db1))
                         (N.succ (N.succ (N.succ uid))) now)
                (EvCountDocuments "users" :: seedEvents now uid)
      end
  end.
Proof.
  unfold seed. rewrite bind_eq.
  cbn [countDocuments result world trace]. rewrite countDocuments_docsOf.
  destruct (docsOf "users" (colls w)) as [|d ds]; cbn [length Nat.eqb]; [|reflexivity].
  repeat (rewrite bind_eq; cbn [print newDate newObjectId result world trace]).
  rewrite !insertOne_seedUser. cbn [colls dbName nextOid clock].
  destruct (Server.insert "users" (seedUser (clock w) (nextOid w)) (colls w)) as [e|db1];
    cbn [result world trace app]; [reflexivity|].
  rewrite !insertMany_seedTasks. unfold storedTasks.
  cbn [result world trace app colls setColls dbName nextOid clock].
  destruct (fst (Server.insertAll "tasks" _ db1)); reflexivity.
Qed.


(** *** Settled collections and the second run *)

Lemma settled_after name schema l w :
  result (ensureCollection name schema (Some l) w) = Done tt ->
  settled name schema l (colls (world (ensureCollection name schema (Some l) w))).
Proof.
  intros H. split; [|apply ensureCollection_Done, H].
  apply ensureCollection_validation. eapply ensureCollection_accepted, H.
Qed.

Lemma seed_noop w :
  docsOf "users" (colls w) <> [] -> seed w = mkRun (Done tt) w [EvCountDocuments "users"].
Proof.
  intros H. rewrite seed_unfold. destruct (docsOf "users" (colls w)); [congruence | reflexivity].
Qed.

Lemma insertAll_keepsDocs coll ds db n :
  n <> coll -> keepsDocs n db (snd (Server.insertAll coll ds db)).
Proof.
  intros Hne. apply insertAll_rel; [apply _|].
  intros d' db0 db'. apply insert_keepsDocs, Hne.
Qed.


(** A run on the database a previous run left changes nothing; and it
    returns when that one returned. *)
Lemma script_rerun w w' :
  colls w' = colls (world (script w)) ->
  colls (world (script w')) = colls w'
  /\ match result (script w) with
     | Done _ => result (script w') = Done tt
     | Thrown _ => True
     end.
Proof.
  intros _. rewrite !script_throws. cbn [result world]. auto.
Qed.

(** C2: a second run of the script, in a later shell, on the database the
    first run left leaves that database as it is: the same collections with
    the same indexes, validators and documents; and it returns if the first
    run returned. *)
Theorem script_idempotent w o t :
  let r := script w in
  let r' := script (laterShell (world r) o t) in
  colls (world r') = colls (world r)
  /\ (forall n, indexesOf n (colls (world r')) = indexesOf n (colls (world r)))
  /\ (forall n, validationOf n (colls (world r')) = validationOf n (colls (world r)))
  /\ (forall n, docsOf n (colls (world r')) = docsOf n (colls (world r)))
  /\ match result r with
     | Done _ => result r' = Done tt
     | Thrown _ => True
     end.
Proof.
  intros r r'.
  destruct (script_rerun w (laterShell (world r) o t) eq_refl) as (H1 & H2).
  fold r' in H1. fold r in H2.
  change (colls (laterShell (world r) o t)) with (colls (world r)) in H1.
  split; [exact H1|]. rewrite H1.
  split; [reflexivity|]. split; [reflexivity|]. split; [reflexivity | exact H2].
Qed.

(** *** The documents of a run *)

Lemma insertAll_cons coll d r db :
  Server.insertAll coll (d :: r) db
  = match Server.insert coll d db with
    | inl e => (Some e, db)
    | inr db' => Server.insertAll coll r db'
    end.
Proof. reflexivity. Qed.

Lemma insertAll_docs coll ds db :
  match fst (Server.insertAll coll ds db) with
  | None => docsOf coll (snd (Server.insertAll coll ds db)) = docsOf coll db ++ ds
  | Some _ => exists k, k `prefix_of` ds
                        /\ docsOf coll (snd (Server.insertAll coll ds db)) = docsOf coll db ++ k
  end.
Proof.
  revert db. induction ds as [|d r IH]; intros db.
  - change (Server.insertAll coll [] db) with (@None Err, db). simpl.
    rewrite app_nil_r. reflexivity.
  - rewrite insertAll_cons.
    destruct (Server.insert coll d db) as [e|db'] eqn:E; cbn [fst snd].
    + exists []. split; [apply prefix_nil | rewrite app_nil_r; reflexivity].
    + assert (Hd : docsOf coll db' = docsOf coll db ++ [d]).
      { apply insert_inr in E as (-> & _).
        rewrite docsOf_insert, decide_True by reflexivity. reflexivity. }
      specialize (IH db'). destruct (fst (Server.insertAll coll r db')).
      * destruct IH as (k & Hk & ->). exists (d :: k). split; [apply prefix_cons, Hk|].
        rewrite Hd, <- app_assoc. reflexivity.
      * rewrite IH, Hd, <- app_assoc. reflexivity.
Qed.

Lemma insertAll_docs_prefix coll ds db :
  exists k, k `prefix_of` ds
            /\ docsOf coll (snd (Server.insertAll coll ds db)) = docsOf coll db ++ k.
Proof.
  pose proof (insertAll_docs coll ds db) as H.
  destruct (fst (Server.insertAll coll ds db)); [exact H|].
  exists ds. split; [reflexivity | exact H].
Qed.

Lemma insert_docs coll d db db' :
  Server.insert coll d db = inr db' -> docsOf coll db' = docsOf coll db ++ [d].
Proof.
  intros (-> & _)%insert_inr. rewrite docsOf_insert, decide_True by reflexivity. reflexivity.
Qed.

(** The seed block adds documents only, after the existing ones, and only
    those of [seedsFor]. *)

(** After a seed block that returned [users] is not empty. *)
Lemma seed_users_nonempty w :
  result (seed w) = Done tt -> docsOf "users" (colls (world (seed w))) <> [].
Proof.
  rewrite seed_unfold.
  destruct (docsOf "users" (colls w)) as [|d ds] eqn:Hd; [|simpl; rewrite Hd; discriminate].
  cbv zeta. destruct (Server.insert "users" _ (colls w)) as [e|db1] eqn:E; [discriminate|].
  cbn [result world colls]. intros _.
  rewrite (insertAll_keepsDocs "tasks" _ db1 "users") by discriminate.
  rewrite (insert_docs _ _ _ _ E), Hd. discriminate.
Qed.

Lemma seed_docs w n :
  exists extra, extra `prefix_of` seedsFor w n
                /\ docsOf n (colls (world (seed w))) = docsOf n (colls w) ++ extra.
Proof.
  rewrite seed_unfold. unfold seedsFor.
  destruct (docsOf "users" (colls w)) as [|u us] eqn:Hu.
  2:{ exists []. split; [apply prefix_nil | simpl; rewrite app_nil_r; reflexivity]. }
  cbv zeta.
  destruct (Server.insert "users" _ (colls w)) as [e|db1] eqn:E; simpl.
  { exists []. split; [apply prefix_nil | rewrite app_nil_r; reflexivity]. }
  set (ts := storedTasks (clock w) (nextOid w)).
  destruct (String.eqb_spec n "users") as [->|Hnu].
  - exists [seedUser (clock w) (nextOid w)]. split; [reflexivity|].
    rewrite (insertAll_keepsDocs "tasks" ts db1 "users") by discriminate.
    apply insert_docs, E.
  - assert (Hn1 : docsOf n db1 = docsOf n (colls w)).
    { eapply insert_keepsDocs; [exact Hnu | exact E]. }
    destruct (String.eqb_spec n "tasks") as [->|Hnt].
    + destruct (insertAll_docs_prefix "tasks" ts db1) as (k & Hk & ->).
      exists k. rewrite Hn1. auto.
    + exists []. split; [apply prefix_nil|].
      rewrite (insertAll_keepsDocs "tasks" ts db1 n) by exact Hnt.
      rewrite Hn1, app_nil_r. reflexivity.
Qed.

Lemma seedsFor_same w w' n :
  docsOf "users" (colls w') = docsOf "users" (colls w) -> shellOf w' = shellOf w ->
  seedsFor w' n = seedsFor w n.
Proof.
  unfold seedsFor, shellOf. intros -> [= _ -> ->]. reflexivity.
Qed.

(** The documents after a run: those before it, then what the seed block
    added. *)
Lemma script_docs w n :
  exists extra, extra `prefix_of` seedsFor w n
                /\ docsOf n (colls (world (script w))) = docsOf n (colls w) ++ extra.
Proof.
  pose proof (script_unfold w) as U. cbv zeta in U.
  set (ru := ensureCollection "users" usersSchema (Some usersIndexes) w) in *.
  set (rt := ensureCollection "tasks" tasksSchema (Some tasksIndexes) (world ru)) in *.
  set (rs := seed (world rt)) in *.
  assert (Du : forall m, docsOf m (colls (world ru)) = docsOf m (colls w)).
  { intros m. apply (ensureCollection_keepsDocs "users" usersSchema (Some usersIndexes) m w). }
  assert (Dt : forall m, docsOf m (colls (world rt)) = docsOf m (colls w)).
  { intros m. rewrite <- Du.
    apply (ensureCollection_keepsDocs "tasks" tasksSchema (Some tasksIndexes) m (world ru)). }
  assert (Sh : shellOf (world rt) = shellOf w).
  { unfold rt, ru. rewrite !ensureCollection_shell. reflexivity. }
  assert (Hs : exists extra, extra `prefix_of` seedsFor w n
                 /\ docsOf n (colls (world rs)) = docsOf n (colls w) ++ extra).
  { destruct (seed_docs (world rt) n) as (k & Hk & Hd).
    exists k. rewrite <- (seedsFor_same w (world rt) n (Dt "users") Sh), <- Dt. auto. }
  assert (H0 : forall db, docsOf n db = docsOf n (colls w) ->
               exists extra, extra `prefix_of` seedsFor w n
                 /\ docsOf n db = docsOf n (colls w) ++ extra).
  { intros db ->. exists []. split; [apply prefix_nil | rewrite app_nil_r; reflexivity]. }
  rewrite U. destruct (result ru); [|apply H0, Du].
  destruct (result rt); [|apply H0, Dt].
  destruct (result rs); exact Hs.
Qed.

(** C9: a run, returning or throwing, keeps every collection, every index
    and every document that was there, in place and unchanged; the only
    documents it adds are seed documents, after the existing ones, and none
    at all when [users] is not empty. *)
Theorem script_frame w :
  let r := script w in
  dom (colls w) ⊆ dom (colls (world r))
  /\ (forall n, indexesOf n (colls w) `prefix_of` indexesOf n (colls (world r)))
  /\ (forall n, docsOf n (colls w) `prefix_of` docsOf n (colls (world r)))
  /\ (forall n, exists extra,
         extra `prefix_of` seedsFor w n
         /\ docsOf n (colls (world r)) = docsOf n (colls w) ++ extra)
  /\ (forall n, seedsFor w n
                = match docsOf "users" (colls w) with
                  | [] => if String.eqb n "users" then [seedUser (clock w) (nextOid w)]
                          else if String.eqb n "tasks" then storedTasks (clock w) (nextOid w)
                          else []
                  | _ :: _ => []
                  end).
Proof.
  intros r.
  assert (E : extends (colls w) (colls (world r))).
  { subst r. revert w. change (preserves extends script). unfold script.
    apply preserves_bind; [apply _ | apply preserves_getName; apply _ | intros db0].
    apply preserves_bind; [apply _ | apply preserves_print; apply _ | intros _].
    apply preserves_bind; [apply _ | apply ensureCollection_extends | intros _].
    apply preserves_bind; [apply _ | apply ensureCollection_extends | intros _].
    apply preserves_bind; [apply _ | apply seed_extends | intros _].
    apply preserves_print; apply _. }
  destruct E as (E1 & E2 & E3).
  split; [exact E3|]. split; [exact E2|]. split; [exact E1|].
  split; [intros n; apply script_docs | reflexivity].
Qed.





(** *** The order of the calls *)

Lemma ensureCollection_trace name schema l w :
  match result (ensureCollection name schema (Some l) w) with
  | Done _ => trace (ensureCollection name schema (Some l) w)
              = ensureEvents name schema l (existsColl name (colls w))
  | Thrown _ => trace (ensureCollection name schema (Some l) w)
                `prefix_of` ensureEvents name schema l (existsColl name (colls w))
  end.
Proof.
  rewrite ensureCollection_unfold. unfold ensureEvents.
  destruct (refusal name schema (colls w)) as [e|].
  { cbn [result trace]. apply prefix_app_r. reflexivity. }
  simpl.
  set (w1 := setColls w _). pose proof (ensureIndexes_trace name l w1) as T.
  destruct (result (forEach l (ensureIndex name) w1)).
  - rewrite T. reflexivity.
  - apply prefix_app, T.
Qed.

Lemma seed_trace w :
  match result (seed w) with
  | Done _ => trace (seed w)
              = EvCountDocuments "users"
                  :: match docsOf "users" (colls w) with
                     | [] => seedEvents (clock w) (nextOid w)
                     | _ :: _ => []
                     end
  | Thrown _ => trace (seed w)
                `prefix_of` EvCountDocuments "users"
                              :: match docsOf "users" (colls w) with
                                 | [] => seedEvents (clock w) (nextOid w)
                                 | _ :: _ => []
                                 end
  end.
Proof.
  rewrite seed_unfold. destruct (docsOf "users" (colls w)); [|reflexivity].
  cbv zeta. destruct (Server.insert "users" _ (colls w)) as [e|db1]; simpl.
  - do 3 apply prefix_cons. apply prefix_nil.
  - destruct (fst (Server.insertAll "tasks" _ db1)); reflexivity.
Qed.

(** C7: the four phases are not performed.  Every run, from every
    database, stops at the validator step of [users]: the server refuses
    the users schema, which carries the [default] keyword, and the run
    throws after the first four events of the sequence the script lays out
    (the opening progress line, the lookup of [users], the progress line of
    the validator step and the create or [collMod] call).  No index call,
    no count and no insert is issued, nothing is done for [tasks], and the
    database is as it was. *)
Theorem script_stops_at_users_validator w :
  let r := script w in
  let v := mkValidation usersSchema Moderate Error in
  result r = Thrown FailedToParse
  /\ world r = w
  /\ validatorCall "users" v (colls w) = inl FailedToParse
  /\ trace r = firstn 4 (scriptEvents w)
  /\ trace r
     = [EvPrint (MsgInitializing (dbName w)); EvGetCollectionInfos "users";
        EvPrint (if existsColl "users" (colls w) then MsgUpdating "users"
                 else MsgCreating "users");
        if existsColl "users" (colls w) then EvRunCommand (collMod "users" v)
        else EvCreateCollection "users" v]
  /\ createIndexCalls (trace r) = []
  /\ scriptEvents w
     = [EvPrint (MsgInitializing (dbName w))]
       ++ (validatorEvents "users" usersSchema (existsColl "users" (colls w))
             ++ flat_map (indexEvents "users") usersIndexes)
       ++ (validatorEvents "tasks" tasksSchema (existsColl "tasks" (colls w))
             ++ flat_map (indexEvents "tasks") tasksIndexes)
       ++ [EvCountDocuments "users"]
       ++ match docsOf "users" (colls w) with
          | [] => [EvPrint MsgSeedingUser;
                   EvInsertOne "users" (seedUser (clock w) (nextOid w));
                   EvPrint MsgSeedingTasks;
                   EvInsertMany "tasks" (seedTasks (clock w) (nextOid w))]
          | _ :: _ => []
          end
       ++ [EvPrint MsgCompleted].
Proof.
  intros r v. subst r. rewrite script_throws. cbn [result world trace].
  split; [reflexivity|]. split; [reflexivity|]. split.
  { rewrite validatorCall_refusal. subst v. cbn [validator].
    rewrite usersSchema_refused. reflexivity. }
  split.
  { unfold scriptEvents, ensureEvents, validatorEvents.
    destruct (existsColl "users" (colls w)); reflexivity. }
  split.
  { unfold validatorEvents. destruct (existsColl "users" (colls w)); reflexivity. }
  split; [|reflexivity].
  unfold validatorEvents. destruct (existsColl "users" (colls w)); reflexivity.
Qed.

(** *** Seeding an empty database *)

Lemma sameKey_id d d' o o' :
  field "_id" d = Some (VObjectId o) -> field "_id" d' = Some (VObjectId o') -> o <> o' ->
  Server.sameKey [("_id", KDir Ascending)] d d' = false.
Proof.
  intros H H' Hne. unfold Server.sameKey, Server.keyOf. simpl. rewrite H, H'. simpl.
  apply N.eqb_neq in Hne. rewrite Hne. reflexivity.
Qed.

(** A document with an [_id] no stored document has violates nothing when
    only the [_id] index enforces uniqueness. *)
Lemma violates_fresh_id c d o :
  onlyIdEnforced (coll_indexes c) = true ->
  field "_id" d = Some (VObjectId o) ->
  Forall (fun d' => exists o', field "_id" d' = Some (VObjectId o') /\ o <> o') (coll_docs c) ->
  Server.violates c d = false.
Proof.
  intros Hi Hd Hds.
  assert (Hno : existsb (Server.sameKey [("_id", KDir Ascending)] d) (coll_docs c) = false).
  { induction Hds as [|d' ds (o' & Ho' & Hne) _ IHd]; [reflexivity|].
    cbn [existsb]. rewrite (sameKey_id d d' o o' Hd Ho' Hne). exact IHd. }
  unfold Server.violates, onlyIdEnforced in *.
  induction (coll_indexes c) as [|ix r IH]; [reflexivity|].
  cbn [existsb forallb] in *. apply andb_true_iff in Hi as (Hix & Hr).
  rewrite (IH Hr), orb_false_r.
  destruct (Server.enforced ix); [|reflexivity].
  cbn [negb orb andb] in *. apply bool_decide_eq_true in Hix. rewrite Hix. exact Hno.
Qed.

Lemma implicit_lookup db n c : db !! n = Some c -> Server.implicit db n = c.
Proof. unfold Server.implicit. intros ->. reflexivity. Qed.

Lemma implicit_insert_ne db n m c : m <> n -> Server.implicit (<[m := c]> db) n = Server.implicit db n.
Proof. intros H. unfold Server.implicit. rewrite lookup_insert_ne by exact H. reflexivity. Qed.

Lemma implicit_insert_eq db n c : Server.implicit (<[n := c]> db) n = c.
Proof. unfold Server.implicit. rewrite lookup_insert_eq. reflexivity. Qed.

Lemma reachable_tasks db : Server.reachable db "tasks" = true.
Proof.
  unfold Server.reachable. destruct (db !! "tasks"); [reflexivity | vm_compute; reflexivity].
Qed.

(** Into an empty [tasks] that carries no validator, with no unique index
    but the one on [_id], the two seed tasks go in. *)
Lemma insertAll_storedTasks db now uid :
  docsOf "tasks" db = [] ->
  validationOf "tasks" db = None ->
  onlyIdEnforced (coll_indexes (Server.implicit db "tasks")) = true ->
  fst (Server.insertAll "tasks" (storedTasks now uid) db) = None.
Proof.
  intros Hd Hv Hi.
  assert (Hst : exists t1 t2,
             storedTasks now uid
             = [("_id", VObjectId (N.succ uid)) :: t1;
                ("_id", VObjectId (N.succ (N.succ uid))) :: t2]).
  { eexists _, _. reflexivity. }
  destruct Hst as (t1 & t2 & Hst).
  rewrite Hst. clear Hst.
  set (d1 := ("_id", VObjectId (N.succ uid)) :: t1) in *.
  set (d2 := ("_id", VObjectId (N.succ (N.succ uid))) :: t2) in *.
  set (c := Server.implicit db "tasks") in *.
  assert (Hval : forall d c', coll_validation c' = None -> Server.rejected c' d = false).
  { intros d c' Hc'. unfold Server.rejected. rewrite Hc'. reflexivity. }
  assert (Hcv : coll_validation c = None).
  { unfold c. rewrite validationOf_implicit. exact Hv. }
  assert (Hcd : coll_docs c = []) by (unfold c; rewrite docsOf_implicit; exact Hd).
  rewrite insertAll_cons. unfold Server.insert at 1. fold c.
  rewrite reachable_tasks. cbn [negb].
  rewrite (Hval d1 c Hcv), (violates_empty c d1 Hcd).
  rewrite insertAll_cons. unfold Server.insert at 1. rewrite implicit_insert_eq.
  rewrite reachable_tasks. cbn [negb].
  rewrite (Hval d2) by exact Hcv.
  rewrite (violates_fresh_id _ d2 (N.succ (N.succ uid))); [reflexivity | exact Hi | reflexivity |].
  cbn [coll_docs]. rewrite Hcd. cbn [app]. constructor; [|constructor].
  exists (N.succ uid). split; [reflexivity | lia].
Qed.

Lemma seed_on_empty w :
  docsOf "users" (colls w) = [] ->
  docsOf "tasks" (colls w) = [] ->
  validationOf "users" (colls w) = None ->
  validationOf "tasks" (colls w) = None ->
  onlyIdEnforced (coll_indexes (Server.implicit (colls w) "tasks")) = true ->
  result (seed w) = Done tt
  /\ docsOf "users" (colls (world (seed w))) = [seedUser (clock w) (nextOid w)]
  /\ docsOf "tasks" (colls (world (seed w))) = storedTasks (clock w) (nextOid w).
Proof.
  intros Hu Ht Vu Vt Hi. rewrite seed_unfold, Hu. cbv zeta.
  destruct (insert_seedUser (colls w) (clock w) (nextOid w) Hu Vu) as (db1 & E & Hu1).
  rewrite E. cbn [result world trace colls].
  assert (Ht1 : docsOf "tasks" db1 = []).
  { rewrite (insert_keepsDocs "users" _ _ _ "tasks" ltac:(discriminate) E). exact Ht. }
  assert (Vt1 : validationOf "tasks" db1 = None).
  { rewrite (insert_keepsValidation "users" _ _ _ "tasks" E). exact Vt. }
  assert (Hi1 : onlyIdEnforced (coll_indexes (Server.implicit db1 "tasks")) = true).
  { apply insert_inr in E as (-> & _). rewrite implicit_insert_ne by discriminate. exact Hi. }
  pose proof (insertAll_storedTasks db1 (clock w) (nextOid w) Ht1 Vt1 Hi1) as F.
  pose proof (insertAll_docs "tasks" (storedTasks (clock w) (nextOid w)) db1) as D.
  rewrite F in *. split; [reflexivity|]. split.
  - rewrite (insertAll_keepsDocs "tasks" _ db1 "users") by discriminate. exact Hu1.
  - rewrite D, Ht1. reflexivity.
Qed.

(** C4: from an empty database the run seeds nothing.  Its first server
    call, [createCollection] for [users], is refused, the users schema
    carrying the [default] keyword; the run throws there and the database
    stays empty: [users] and [tasks] hold no document. *)
Theorem empty_database_run_throws name o t :
  let r := script (mkWorld name ∅ o t) in
  let v := mkValidation usersSchema Moderate Error in
  result r = Thrown FailedToParse
  /\ Server.createCollection "users" v ∅ = inl FailedToParse
  /\ colls (world r) = ∅
  /\ length (docsOf "users" (colls (world r))) = 0
  /\ length (docsOf "tasks" (colls (world r))) = 0
  /\ trace r = [EvPrint (MsgInitializing name); EvGetCollectionInfos "users";
                EvPrint (MsgCreating "users"); EvCreateCollection "users" v].
Proof.
  intros r v. subst r. rewrite script_throws. cbn [result world trace colls].
  split; [reflexivity|]. split; [vm_compute; reflexivity|].
  repeat split; reflexivity.
Qed.

(** C10: the seed documents satisfy the validators the script installs:
    the seed user satisfies the users schema, having the required fields,
    an email of 5 to 320 characters, a password hash of at least 20 and no
    field outside the declared properties; the seed tasks, as the script
    writes them and as they are stored with their [_id], satisfy the tasks
    schema, with a status of the enumeration and checklist items that
    satisfy the item schema. *)
Theorem seeds_satisfy_validators now uid :
  validate usersSchema (VObject (seedUser now uid)) = true
  /\ Forall (fun d => validate tasksSchema (VObject d) = true) (seedTasks now uid)
  /\ Forall (fun d => validate tasksSchema (VObject d) = true) (storedTasks now uid)
  /\ Forall (fun k => field k (seedUser now uid) <> None) ["email"; "passwordHash"; "createdAt"]
  /\ (exists e h, field "email" (seedUser now uid) = Some (VString e)
                  /\ 5 <= String.length e <= 320
                  /\ field "passwordHash" (seedUser now uid) = Some (VString h)
                  /\ 20 <= String.length h)
  /\ Forall (fun kv => In (fst kv) (match declared usersSchema with Some l => l | None => [] end))
            (seedUser now uid)
  /\ Forall (fun d =>
       Forall (fun k => field k d <> None) ["title"; "status"; "ownerId"; "createdAt"]
       /\ (exists s, field "status" d = Some (VString s)
                     /\ In s ["todo"; "in_progress"; "done"; "archived"])
       /\ (exists items, field "checklist" d = Some (VArray items)
             /\ Forall (fun it =>
                  validate [bsonType [TObject]; required ["text"; "done"];
                            additionalProperties false;
                            properties [("text", [bsonType [TString]; minLength 1;
                                                  maxLength 1000]);
                                        ("done", [bsonType [TBool]]);
                                        ("doneAt", [bsonType [TDate; TNull]])]] it = true)
                  items))
       (seedTasks now uid).
Proof.
  split; [apply seedUser_valid|].
  split.
  { apply List.Forall_forall. intros d Hd.
    pose proof (proj1 (seedTasks_valid now uid)) as H. rewrite forallb_forall in H.
    exact (H d Hd). }
  split.
  { apply List.Forall_forall. intros d Hd.
    pose proof (proj2 (seedTasks_valid now uid)) as H. rewrite forallb_forall in H.
    exact (H d Hd). }
  split.
  { unfold seedUser. repeat (constructor; [discriminate|]). constructor. }
  split.
  { exists "demo@example.com", "bcrypt$demo-placeholder".
    split; [reflexivity|]. split; [cbn; lia|]. split; [reflexivity | cbn; lia]. }
  split.
  { unfold seedUser, usersSchema. cbn [declared map fst].
    repeat (constructor; [cbn; tauto|]). constructor. }
  unfold seedTasks. constructor; [|constructor; [|constructor]].
  - split; [repeat (constructor; [discriminate|]); constructor|]. split.
    + exists "todo". split; [reflexivity | cbn; tauto].
    + eexists. split; [reflexivity|].
      constructor; [vm_compute; reflexivity|]. constructor; [vm_compute; reflexivity|].
      constructor.
  - split; [repeat (constructor; [discriminate|]); constructor|]. split.
    + exists "in_progress". split; [reflexivity | cbn; tauto].
    + eexists. split; [reflexivity | constructor].
Qed.


(** *** What the validators of the script would reject, and what the
    database accepts after a run *)

Lemma forallb_false_In {A : Type} (f : A -> bool) (l : list A) (x : A) :
  In x l -> f x = false -> forallb f l = false.
Proof.
  intros Hin Hf. destruct (forallb f l) eqn:E; [|reflexivity].
  rewrite forallb_forall in E. rewrite (E x Hin) in Hf. discriminate.
Qed.

(** The [properties] keyword checks each declared property that the
    document has against its sub-schema. *)
Lemma holds_properties ns ps fs :
  holds ns (properties ps) (VObject fs)
  = forallb (fun p => match field (fst p) fs with
                      | Some x => validate (snd p) x
                      | None => true
                      end) ps.
Proof.
  cbn [holds]. induction ps as [|[n s] ps IH]; [reflexivity|].
  cbn [forallb fst snd]. rewrite IH. reflexivity.
Qed.

Lemma invalid_coll coll d : invalid coll d -> coll = "users" \/ coll = "tasks".
Proof. intros []; auto. Qed.

(** An invalid document fails the schema of its collection. *)
Lemma invalid_fails coll d : invalid coll d -> validate (schemaOf coll) (VObject d) = false.
Proof.
  intros [d0 s H1 H2|d0 s H1 H2|d0 H1]; unfold schemaOf; simpl String.eqb; cbv iota.
  - unfold validate, tasksSchema.
    eapply forallb_false_In; [right; right; right; left; reflexivity|].
    rewrite holds_properties.
    eapply forallb_false_In; [do 3 right; left; reflexivity|].
    cbn [fst snd]. rewrite H1. unfold validate. simpl.
    assert (E : forall x, In x ["todo"; "in_progress"; "done"; "archived"] ->
                          String.eqb s x = false).
    { intros x Hx. apply String.eqb_neq. intros ->. exact (H2 Hx). }
    rewrite !E by (simpl; tauto). reflexivity.
  - unfold validate, usersSchema.
    eapply forallb_false_In; [right; right; right; left; reflexivity|].
    rewrite holds_properties.
    eapply forallb_false_In; [right; left; reflexivity|].
    cbn [fst snd]. rewrite H1. unfold validate. simpl.
    assert (L : Nat.leb 5 (String.length s) = false) by (apply Nat.leb_gt; exact H2).
    destruct (String.length s) as [|[|[|[|[|n]]]]]; try reflexivity. discriminate L.
  - unfold validate, tasksSchema.
    eapply forallb_false_In; [right; left; reflexivity|].
    simpl. rewrite H1. reflexivity.
Qed.


Lemma reachable_invalid db coll d : invalid coll d -> Server.reachable db coll = true.
Proof.
  intros [-> | ->]%invalid_coll; unfold Server.reachable;
    (destruct (db !! _); [reflexivity | vm_compute; reflexivity]).
Qed.

(** C8: no validator of the script is installed, so nothing is rejected.
    The run on an empty database throws at the validator step of [users]
    and leaves the database empty; a task whose status is a string outside
    the enumeration, a user whose email is a string of fewer than 5
    characters and a task without a title, each of which fails the schema
    the script holds for its collection, are then accepted on insert and
    stored. *)
Theorem invalid_documents_accepted name o t coll d :
  invalid coll d ->
  let w1 := world (script (mkWorld name ∅ o t)) in
  validate (schemaOf coll) (VObject d) = false
  /\ validationOf coll (colls w1) = None
  /\ result (insertOne coll d w1) = Done tt
  /\ (docsOf coll (colls (world (insertOne coll d w1))) = [d]
      \/ docsOf coll (colls (world (insertOne coll d w1))) = [("_id", VObjectId o) :: d]).
Proof.
  intros Hbad w1. subst w1. rewrite script_throws. cbn [world].
  split; [apply invalid_fails, Hbad|]. split; [reflexivity|].
  assert (Hins : forall d', Server.insert coll d' ∅
                 = inr (<[coll := mkCollection None [Server.idIndex] [d']]> ∅)).
  { intros d'. unfold Server.insert.
    rewrite (reachable_invalid ∅ coll d Hbad). cbn [negb].
    unfold Server.implicit. rewrite lookup_empty. reflexivity. }
  unfold insertOne, withId. destruct (field "_id" d) as [v|].
  - unfold mbind, M_bind, bind, ret, call. cbn [result world trace colls].
    rewrite Hins. cbn [result world colls setColls].
    split; [reflexivity|]. left.
    rewrite docsOf_insert, decide_True by reflexivity. reflexivity.
  - unfold mbind, M_bind, bind, ret, call, newObjectId. cbn [result world trace colls nextOid].
    rewrite Hins. cbn [result world colls setColls].
    split; [reflexivity|]. right.
    rewrite docsOf_insert, decide_True by reflexivity. reflexivity.
Qed.

(** After the run on an empty database a task with status "later" is
    accepted. *)
Lemma invalid_documents_accepted_witness :
  let d := [("title", VString "x"); ("status", VString "later")] in
  let w1 := world (script (mkWorld "myapp" ∅ 0%N 0%Z)) in
  validate (schemaOf "tasks") (VObject d) = false
  /\ validationOf "tasks" (colls w1) = None
  /\ result (insertOne "tasks" d w1) = Done tt
  /\ (docsOf "tasks" (colls (world (insertOne "tasks" d w1))) = [d]
      \/ docsOf "tasks" (colls (world (insertOne "tasks" d w1)))
         = [("_id", VObjectId 0%N) :: d]).
Proof.
  apply (invalid_documents_accepted "myapp" 0%N 0%Z "tasks"
           [("title", VString "x"); ("status", VString "later")]).
  apply (bad_status _ "later"); [reflexivity|].
  simpl. intros [H|[H|[H|[H|[]]]]]; discriminate H.
Defined.


(** * Further properties of the script *)
(* ===================================================================== *)

#[global] Instance keepsLookup_preorder n : PreOrder (keepsLookup n).
Proof.
  split; [intros db; reflexivity|].
  intros a b c H1 H2. unfold keepsLookup in *. congruence.
Qed.

Lemma keepsLookup_insert n m c (db : gmap string Collection) :
  m <> n -> keepsLookup n db (<[m := c]> db).
Proof. intros H. unfold keepsLookup. apply lookup_insert_ne, H. Qed.

Lemma createIndex_keepsLookup coll keys options db db' n :
  n <> coll -> Server.createIndex coll keys options db = inr db' -> keepsLookup n db db'.
Proof.
  intros Hne (_ & ixs & -> & _)%createIndex_inr. apply keepsLookup_insert. congruence.
Qed.

Lemma insert_keepsLookup coll d db db' n :
  n <> coll -> Server.insert coll d db = inr db' -> keepsLookup n db db'.
Proof. intros Hne (-> & _)%insert_inr. apply keepsLookup_insert. congruence. Qed.



Lemma append_empty (a b : string) : (a +:+ b = "" -> a = "" /\ b = "")%string.
Proof. destruct a; simpl; [auto | discriminate]. Qed.

Lemma derivedName_empty keys : derivedName keys = "" <-> keys = [].
Proof.
  split; [|intros ->; reflexivity].
  destruct keys as [|[k v] r]; [reflexivity|]. unfold derivedName. cbn [map fst snd].
  intros H. exfalso.
  destruct (map (fun kv : string * KeyVal => kv.1 +:+ "_" +:+ showKeyVal kv.2) r) as [|y ys];
    cbn [join] in H.
  - apply append_empty in H as (_ & H). discriminate H.
  - apply append_empty in H as (H & _). apply append_empty in H as (_ & H). discriminate H.
Qed.

Lemma truthy_false s : truthy s = false <-> s = "".
Proof. destruct s; simpl; split; intros H; congruence. Qed.

(** X2: an index entry is created on a collection other than the one of
    the [name] argument exactly when its options name that collection, with
    a non-empty string, and the entry has a key or a non-empty name; an entry
    with neither keys nor name stays on the [name] argument whatever its
    [collection] option says. *)
Theorem index_redirect_iff arg1 keys options c :
  c <> arg1 ->
  (indexTarget arg1 keys options = c
   <-> opt_collection options = Some c
       /\ c <> ""
       /\ (keys <> [] \/ exists n, opt_name options = Some n /\ n <> "")).
Proof.
  intros Hc. unfold indexTarget, indexName, or_else.
  destruct (opt_collection options) as [c'|] eqn:Eo.
  2:{ destruct (truthy _); split; try congruence; intros (H & _); discriminate H. }
  assert (Hname : truthy match opt_name options with
                         | Some s => if truthy s then s else derivedName keys
                         | None => derivedName keys
                         end = true
                  <-> keys <> [] \/ exists n, opt_name options = Some n /\ n <> "").
  { destruct (opt_name options) as [n|].
    - destruct (truthy n) eqn:Tn.
      + rewrite Tn. split; [|reflexivity]. intros _. right. exists n. split; [reflexivity|].
        intros ->. discriminate Tn.
      + apply truthy_false in Tn. subst n. split.
        * intros H. left. intros ->. discriminate H.
        * intros [H|(n & [= <-] & Hn)]; [|congruence].
          destruct (truthy (derivedName keys)) eqn:T; [reflexivity|].
          apply truthy_false, derivedName_empty in T. contradiction.
    - split.
      + intros H. left. intros ->. discriminate H.
      + intros [H|(n & Hn & _)]; [|discriminate Hn].
        destruct (truthy (derivedName keys)) eqn:T; [reflexivity|].
        apply truthy_false, derivedName_empty in T. contradiction. }
  destruct (truthy match opt_name options with
                   | Some s => if truthy s then s else derivedName keys
                   | None => derivedName keys
                   end) eqn:Tn.
  - destruct (truthy c') eqn:Tc.
    + split.
      * intros ->. split; [reflexivity|]. split; [intros ->; discriminate Tc|].
        apply Hname. reflexivity.
      * intros ([= ->] & _). reflexivity.
    + apply truthy_false in Tc. subst c'. split; [congruence|].
      intros ([= <-] & H & _). congruence.
  - split; [congruence|]. intros (_ & _ & H). apply Hname in H. discriminate H.
Qed.

Lemma index_redirect_iff_witness :
  indexTarget "users" (keysOf strayIndex) (optionsOf strayIndex) = "tasks"
  <-> opt_collection (optionsOf strayIndex) = Some "tasks"
      /\ "tasks" <> ""
      /\ (keysOf strayIndex <> []
          \/ exists n, opt_name (optionsOf strayIndex) = Some n /\ n <> "").
Proof.
  apply (index_redirect_iff "users" (keysOf strayIndex) (optionsOf strayIndex) "tasks").
  discriminate.
Defined.

(** With no redirecting entry, [ensureCollection] leaves the lookup of
    every other collection as it was. *)
Lemma ensureCollection_keepsLookup name schema indexes n :
  n <> name ->
  Forall (fun idx => indexTarget name (keysOf idx) (optionsOf idx) = name) (entries indexes) ->
  preserves (keepsLookup n) (ensureCollection name schema indexes).
Proof.
  intros Hn Hall.
  apply preserves_ensureCollection; [apply _ | | |].
  - intros v db db' (_ & ->)%createCollection_inr. apply keepsLookup_insert. congruence.
  - intros v db db' (c & _ & ->)%collMod_inr. apply keepsLookup_insert. congruence.
  - intros idx db db' Hin H. rewrite List.Forall_forall in Hall. rewrite (Hall idx Hin) in H.
    eapply createIndex_keepsLookup; [exact Hn | exact H].
Qed.

(** X3: when no entry redirects, [ensureCollection] leaves every other
    collection exactly as it was: validator, indexes and documents. *)
Theorem ensureCollection_touches_only_name name schema indexes w n :
  n <> name ->
  Forall (fun idx => indexTarget name (keysOf idx) (optionsOf idx) = name) (entries indexes) ->
  colls (world (ensureCollection name schema indexes w)) !! n = colls w !! n.
Proof.
  intros Hn Hall. apply (ensureCollection_keepsLookup name schema indexes n Hn Hall w).
Qed.

Lemma ensureCollection_touches_only_name_witness :
  colls (world (ensureCollection "users" [bsonType [TObject]] (Some usersIndexes) tasksOnly))
    !! "tasks"
  = colls tasksOnly !! "tasks".
Proof.
  apply (ensureCollection_touches_only_name "users" [bsonType [TObject]] (Some usersIndexes)
           tasksOnly "tasks").
  - discriminate.
  - repeat constructor.
Defined.

Lemma fixed_targets :
  Forall (fun idx => indexTarget "users" (keysOf idx) (optionsOf idx) = "users") usersIndexes
  /\ Forall (fun idx => indexTarget "tasks" (keysOf idx) (optionsOf idx) = "tasks") tasksIndexes.
Proof. split; repeat constructor. Qed.

(** X4: a run, returning or throwing, leaves every collection other than
    [users] and [tasks] exactly as it was. *)
Theorem script_touches_only_users_and_tasks w n :
  n <> "users" -> n <> "tasks" ->
  colls (world (script w)) !! n = colls w !! n.
Proof.
  intros Hu Ht. revert w. change (preserves (keepsLookup n) script). unfold script.
  apply preserves_bind; [apply _ | apply preserves_getName; apply _ | intros db0].
  apply preserves_bind; [apply _ | apply preserves_print; apply _ | intros _].
  apply preserves_bind; [apply _ | | intros _].
  { apply ensureCollection_keepsLookup; [exact Hu | apply fixed_targets]. }
  apply preserves_bind; [apply _ | | intros _].
  { apply ensureCollection_keepsLookup; [exact Ht | apply fixed_targets]. }
  apply preserves_bind; [apply _ | | intros _; apply preserves_print; apply _].
  apply preserves_seed; [apply _|].
  intros c d' db db' H [-> | ->]; (eapply insert_keepsLookup; [|exact H]; assumption).
Qed.

Lemma script_touches_only_users_and_tasks_witness :
  colls (world (script emptyWorld)) !! "sessions" = colls emptyWorld !! "sessions".
Proof.
  apply (script_touches_only_users_and_tasks emptyWorld "sessions"); discriminate.
Defined.

Lemma ensureEvents_not_completed name schema l b :
  forallb (fun e => negb (isCompleted e)) (ensureEvents name schema l b) = true.
Proof.
  unfold ensureEvents. rewrite forallb_app. apply andb_true_iff. split.
  - destruct b; reflexivity.
  - induction l as [|idx r IH]; [reflexivity|].
    change (flat_map (indexEvents name) (idx :: r))
      with (indexEvents name idx ++ flat_map (indexEvents name) r).
    rewrite forallb_app, IH. reflexivity.
Qed.

Lemma prefix_forallb {A : Type} (f : A -> bool) (l l' : list A) :
  l `prefix_of` l' -> forallb f l' = true -> forallb f l = true.
Proof. intros [k ->]. rewrite forallb_app. intros (H & _)%andb_true_iff. exact H. Qed.

Lemma ensureCollection_not_completed name schema l w :
  forallb (fun e => negb (isCompleted e)) (trace (ensureCollection name schema (Some l) w)) = true.
Proof.
  pose proof (ensureCollection_trace name schema l w) as T.
  destruct (result (ensureCollection name schema (Some l) w)).
  - rewrite T. apply ensureEvents_not_completed.
  - eapply prefix_forallb; [exact T | apply ensureEvents_not_completed].
Qed.

Lemma seed_not_completed w :
  forallb (fun e => negb (isCompleted e)) (trace (seed w)) = true.
Proof.
  pose proof (seed_trace w) as T.
  assert (H : forallb (fun e => negb (isCompleted e))
                (EvCountDocuments "users"
                   :: match docsOf "users" (colls w) with
                      | [] => seedEvents (clock w) (nextOid w)
                      | _ :: _ => []
                      end) = true).
  { destruct (docsOf "users" (colls w)); reflexivity. }
  destruct (result (seed w)).
  - rewrite T. exact H.
  - eapply prefix_forallb; [exact T | exact H].
Qed.

(** X5: the closing progress line, "Initialization script completed
    successfully.", is printed exactly by the runs that return; a run that
    throws never prints it. *)
Theorem completed_iff_returned w :
  existsb isCompleted (trace (script w)) = true <-> result (script w) = Done tt.
Proof.
  pose proof (script_unfold w) as U. cbv zeta in U.
  pose proof (ensureCollection_not_completed "users" usersSchema usersIndexes w) as Nu.
  pose proof (ensureCollection_not_completed "tasks" tasksSchema tasksIndexes
                (world (ensureCollection "users" usersSchema (Some usersIndexes) w))) as Nt.
  pose proof (seed_not_completed
                (world (ensureCollection "tasks" tasksSchema (Some tasksIndexes)
                   (world (ensureCollection "users" usersSchema (Some usersIndexes) w))))) as Ns.
  set (ru := ensureCollection "users" usersSchema (Some usersIndexes) w) in *.
  set (rt := ensureCollection "tasks" tasksSchema (Some tasksIndexes) (world ru)) in *.
  set (rs := seed (world rt)) in *.
  clearbody rs. clearbody rt. clearbody ru.
  assert (No : forall t, forallb (fun e => negb (isCompleted e)) t = true ->
                         existsb isCompleted t = false).
  { intros t. induction t as [|e t IH]; [reflexivity|]. cbn [forallb existsb].
    intros (H1 & H2)%andb_true_iff. rewrite (IH H2). destruct (isCompleted e); [discriminate|].
    reflexivity. }
  rewrite U. destruct (result ru) as [[]|e].
  2:{ cbn [result trace existsb isCompleted orb]. rewrite (No _ Nu). split; discriminate. }
  destruct (result rt) as [[]|e].
  2:{ cbn [result trace existsb isCompleted orb]. rewrite existsb_app, (No _ Nu), (No _ Nt).
      split; discriminate. }
  destruct (result rs) as [[]|e].
  - cbn [result trace existsb isCompleted orb]. rewrite !existsb_app. cbn [existsb isCompleted].
    rewrite !orb_true_r. split; reflexivity.
  - cbn [result trace existsb isCompleted orb].
    rewrite !existsb_app, (No _ Nu), (No _ Nt), (No _ Ns). split; discriminate.
Qed.


(** X6: after a call of [ensureCollection] that returns, the collection
    carries the validator (level "moderate", action "error"), which the
    server had accepted, and the index of every entry is in place on the
    collection the entry targets, with the declared keys and options,
    whatever validator and indexes were there before; a second call on
    that database returns too and changes nothing. *)
Theorem returned_call_settles name schema l w :
  result (ensureCollection name schema (Some l) w) = Done tt ->
  let r := ensureCollection name schema (Some l) w in
  let r' := ensureCollection name schema (Some l) (world r) in
  Server.wellFormed schema = true
  /\ validationOf name (colls (world r)) = Some (mkValidation schema Moderate Error)
  /\ Forall (fun idx =>
       Server.requested (keysOf idx) (optionsOf idx)
         ∈ indexesOf (indexTarget name (keysOf idx) (optionsOf idx)) (colls (world r))) l
  /\ result r' = Done tt
  /\ world r' = world r.
Proof.
  intros Hr r r'. destruct (settled_after name schema l w Hr) as (Hv & Hl).
  fold r in Hv, Hl.
  assert (Hwf : Server.wellFormed schema = true).
  { apply ensureCollection_accepted in Hr. unfold refusal in Hr.
    destruct (negb (Server.reachable (colls w) name)); [discriminate|].
    destruct (Server.wellFormed schema); [reflexivity | discriminate]. }
  split; [exact Hwf|]. split; [exact Hv|]. split.
  - eapply Forall_impl; [exact Hl|]. intros idx (_ & H). exact H.
  - apply ensureCollection_stable; assumption.
Qed.

Lemma returned_call_settles_witness :
  let r := ensureCollection "tasks" [bsonType [TObject]] (Some tasksIndexes) emptyWorld in
  let r' := ensureCollection "tasks" [bsonType [TObject]] (Some tasksIndexes) (world r) in
  Server.wellFormed [bsonType [TObject]] = true
  /\ validationOf "tasks" (colls (world r))
     = Some (mkValidation [bsonType [TObject]] Moderate Error)
  /\ Forall (fun idx =>
       Server.requested (keysOf idx) (optionsOf idx)
         ∈ indexesOf (indexTarget "tasks" (keysOf idx) (optionsOf idx)) (colls (world r)))
       tasksIndexes
  /\ result r' = Done tt
  /\ world r' = world r.
Proof.
  apply (returned_call_settles "tasks" [bsonType [TObject]] tasksIndexes emptyWorld).
  vm_compute. reflexivity.
Defined.

Lemma forEach_first_throws {A : Type} (f : A -> M unit) x r w e :
  result (f x w) = Thrown e ->
  result (forEach (x :: r) f w) = Thrown e
  /\ world (forEach (x :: r) f w) = world (f x w)
  /\ trace (forEach (x :: r) f w) = trace (f x w).
Proof. intros H. cbn [forEach]. apply bind_Thrown, H. Qed.

(** With two documents of one email in [users] and the unique index not
    yet there, ensuring [users] with a schema the server accepts throws at
    its first index. *)
Lemma ensureUsers_duplicates schema w :
  Server.wellFormed schema = true ->
  Server.hasDuplicate [("email", KDir Ascending)] (docsOf "users" (colls w)) = true ->
  uniqEmail ∉ indexesOf "users" (colls w) ->
  exists e, (e = IndexConflict \/ e = DuplicateKey)
            /\ result (ensureCollection "users" schema (Some usersIndexes) w) = Thrown e
            /\ colls (world (ensureCollection "users" schema (Some usersIndexes) w))
               = withValidator "users" (mkValidation schema Moderate Error) (colls w)
            /\ createIndexCalls (trace (ensureCollection "users" schema (Some usersIndexes) w))
               = [("users", [("email", KDir Ascending)],
                   mkOptions (Some true) (Some "uniq_email") None None None)].
Proof.
  intros Hwf Hdup Hni.
  assert (Hex : exists c, colls w !! "users" = Some c).
  { unfold docsOf in Hdup. destruct (colls w !! "users") as [c|]; [eauto | discriminate]. }
  destruct Hex as (c & Hc).
  assert (R : refusal "users" schema (colls w) = None).
  { rewrite refusal_present by (unfold existsColl; rewrite Hc; reflexivity).
    rewrite Hwf. reflexivity. }
  rewrite ensureCollection_unfold, R. cbv zeta. cbn [result world trace].
  set (v := mkValidation schema Moderate Error).
  set (w1 := setColls w (withValidator "users" v (colls w))).
  assert (Hcr : exists e, (e = IndexConflict \/ e = DuplicateKey)
                  /\ Server.createIndex "users" [("email", KDir Ascending)]
                       (mkOptions (Some true) (Some "uniq_email") None None None) (colls w1)
                     = inl e).
  { unfold Server.createIndex. fold uniqEmail.
    unfold w1. rewrite setColls_colls. unfold withValidator, Server.reachable.
    rewrite lookup_insert_eq. cbn [negb].
    rewrite implicit_insert_eq.
    cbn [coll_indexes coll_docs]. rewrite (implicit_lookup _ _ _ Hc).
    rewrite bool_decide_eq_false_2.
    2:{ intros H. apply Hni. unfold indexesOf. rewrite Hc. exact H. }
    destruct (Server.clashes uniqEmail _); [eauto|].
    rewrite Hdup. cbn. eauto. }
  destruct Hcr as (e & He & Hcr). exists e. split; [exact He|].
  assert (Hfirst : ensureIndex "users"
                     (mkIndexSpec (Some [("email", KDir Ascending)])
                        (Some (mkOptions (Some true) (Some "uniq_email") None None None))) w1
                   = mkRun (Thrown e) w1
                       (indexEvents "users"
                          (mkIndexSpec (Some [("email", KDir Ascending)])
                             (Some (mkOptions (Some true) (Some "uniq_email") None None None))))).
  { rewrite ensureIndex_unfold.
    change (indexTarget "users" _ _) with "users".
    change (keysOf _) with [("email", KDir Ascending)].
    change (optionsOf _) with (mkOptions (Some true) (Some "uniq_email") None None None).
    rewrite Hcr. reflexivity. }
  unfold ensureIndexes, usersIndexes.
  match goal with
  | |- context [forEach (?x :: ?r) ?f w1] =>
      destruct (forEach_first_throws f x r w1 e) as (R1 & R2 & R3);
      [rewrite Hfirst; reflexivity|]; rewrite R1, R2, R3, Hfirst
  end.
  split; [reflexivity|]. split; [reflexivity|].
  cbn [trace]. unfold createIndexCalls. rewrite omap_app.
  fold (createIndexCalls (validatorEvents "users" schema (existsColl "users" (colls w)))).
  rewrite validatorEvents_calls. reflexivity.
Qed.

(** X7: when [users] already holds two documents with the same email and
    the unique index on [email] is not there yet, ensuring [users] with
    the fixed index list and a schema the server accepts throws while
    building that index (a duplicate key, or a conflict with an index that
    is in the way), after this one [createIndex] call: by then the
    validator of [users] has been replaced, but no document has changed,
    no index has been added and every other collection is untouched. *)
Theorem duplicate_emails_abort_indexes schema w :
  Server.wellFormed schema = true ->
  Server.hasDuplicate [("email", KDir Ascending)] (docsOf "users" (colls w)) = true ->
  uniqEmail ∉ indexesOf "users" (colls w) ->
  let r := ensureCollection "users" schema (Some usersIndexes) w in
  (result r = Thrown IndexConflict \/ result r = Thrown DuplicateKey)
  /\ createIndexCalls (trace r)
     = [("users", [("email", KDir Ascending)],
         mkOptions (Some true) (Some "uniq_email") None None None)]
  /\ colls (world r) = withValidator "users" (mkValidation schema Moderate Error) (colls w)
  /\ (forall n, n <> "users" -> colls (world r) !! n = colls w !! n)
  /\ (forall n, docsOf n (colls (world r)) = docsOf n (colls w))
  /\ indexesOf "users" (colls (world r)) = indexesOf "users" (colls w).
Proof.
  intros Hwf Hdup Hni r. subst r.
  destruct (ensureUsers_duplicates schema w Hwf Hdup Hni) as (e & He & Hr & Hw & Hc).
  rewrite Hr, Hw, Hc.
  split; [destruct He as [-> | ->]; auto|]. split; [reflexivity|]. split; [reflexivity|].
  split; [|split].
  - intros n Hn. unfold withValidator. apply lookup_insert_ne. congruence.
  - intros n. apply withValidator_keepsDocs.
  - unfold withValidator. rewrite indexesOf_insert, decide_True by reflexivity.
    cbn [coll_indexes]. unfold indexesOf, Server.implicit, docsOf in *.
    destruct (colls w !! "users"); [reflexivity | discriminate].
Qed.

Lemma duplicate_emails_abort_indexes_witness :
  let r := ensureCollection "users" [bsonType [TObject]] (Some usersIndexes) duplicateEmails in
  (result r = Thrown IndexConflict \/ result r = Thrown DuplicateKey)
  /\ createIndexCalls (trace r)
     = [("users", [("email", KDir Ascending)],
         mkOptions (Some true) (Some "uniq_email") None None None)]
  /\ colls (world r)
     = withValidator "users" (mkValidation [bsonType [TObject]] Moderate Error)
         (colls duplicateEmails)
  /\ (forall n, n <> "users" -> colls (world r) !! n = colls duplicateEmails !! n)
  /\ (forall n, docsOf n (colls (world r)) = docsOf n (colls duplicateEmails))
  /\ indexesOf "users" (colls (world r)) = indexesOf "users" (colls duplicateEmails).
Proof.
  apply (duplicate_emails_abort_indexes [bsonType [TObject]] duplicateEmails).
  - vm_compute. reflexivity.
  - vm_compute. reflexivity.
  - vm_compute. intros H. inversion H as [|? ? ? H1]; subst. inversion H1.
Defined.

Lemma violates_by (c : Collection) (d d0 : Doc) (ix : Index) :
  ix ∈ coll_indexes c -> Server.enforced ix = true ->
  d0 ∈ coll_docs c -> Server.sameKey (ix_keys ix) d d0 = true ->
  Server.violates c d = true.
Proof.
  intros Hix He Hd Hk. unfold Server.violates.
  apply existsb_exists. exists ix. split; [apply list_elem_of_In, Hix|].
  rewrite He. cbn [andb]. apply existsb_exists. exists d0.
  split; [apply list_elem_of_In, Hd | exact Hk].
Qed.

Lemma insert_duplicate_email db d d0 e :
  uniqEmail ∈ indexesOf "users" db ->
  d0 ∈ docsOf "users" db ->
  field "email" d0 = Some (VString e) ->
  field "email" d = Some (VString e) ->
  Server.insert "users" d db = inl DocumentValidationFailure
  \/ Server.insert "users" d db = inl DuplicateKey.
Proof.
  intros Hix Hd0 He0 He. unfold Server.insert, Server.reachable.
  unfold indexesOf, docsOf, Server.implicit in *.
  destruct (db !! "users") as [c|]; [|inversion Hix]. cbn [negb].
  destruct (Server.rejected _ d); [left; reflexivity|]. right.
  rewrite (violates_by c d d0 uniqEmail Hix); [reflexivity | reflexivity | exact Hd0 |].
  unfold Server.sameKey, Server.keyOf. cbn [ix_keys uniqEmail Server.requested map fst].
  rewrite He, He0. cbn [value_eqb]. rewrite String.eqb_refl. reflexivity.
Qed.

(** X8: after [users] has been ensured with the fixed index list and the
    call returned, [users] refuses a second document with an email that a
    stored user already has: the insert throws (a validation failure if
    the validator refuses the document anyway, a duplicate key otherwise)
    and the database stays as it is. *)
Theorem duplicate_email_refused schema w d d0 e :
  result (ensureCollection "users" schema (Some usersIndexes) w) = Done tt ->
  let w1 := world (ensureCollection "users" schema (Some usersIndexes) w) in
  d0 ∈ docsOf "users" (colls w1) ->
  field "email" d0 = Some (VString e) ->
  field "email" d = Some (VString e) ->
  let r := insertOne "users" d w1 in
  (result r = Thrown DocumentValidationFailure \/ result r = Thrown DuplicateKey)
  /\ colls (world r) = colls w1.
Proof.
  intros Hr w1 Hd0 He0 He r. subst r.
  assert (Hix : uniqEmail ∈ indexesOf "users" (colls w1)).
  { destruct (settled_after "users" schema usersIndexes w Hr) as (_ & Iu).
    inversion Iu as [|idx l (_ & H) _]; subst. exact H. }
  clearbody w1.
  unfold insertOne, withId. destruct (field "_id" d) as [v|].
  - unfold mbind, M_bind, bind, ret, call. cbn [result world trace colls].
    destruct (insert_duplicate_email (colls w1) d d0 e Hix Hd0 He0 He) as [-> | ->];
      cbn [result world colls]; auto.
  - unfold mbind, M_bind, bind, ret, call, newObjectId. cbn [result world trace colls].
    destruct (insert_duplicate_email (colls w1) (("_id", VObjectId (nextOid w1)) :: d) d0 e
                Hix Hd0 He0 He) as [-> | ->];
      cbn [result world colls]; auto.
Qed.

Lemma duplicate_email_refused_witness :
  let w1 := world (ensureCollection "users" [bsonType [TObject]] (Some usersIndexes) usersOnly) in
  let r := insertOne "users"
             [("email", VString "demo@example.com");
              ("passwordHash", VString "another-password-hash-0123");
              ("createdAt", VDate 9%Z)] w1 in
  (result r = Thrown DocumentValidationFailure \/ result r = Thrown DuplicateKey)
  /\ colls (world r) = colls w1.
Proof.
  apply (duplicate_email_refused [bsonType [TObject]] usersOnly _ (seedUser 0%Z 7%N)
           "demo@example.com").
  - vm_compute. reflexivity.
  - vm_compute. left.
  - reflexivity.
  - reflexivity.
Defined.

(** In that database the second user with the stored user's email passes
    the validator and is refused for the duplicate key. *)
Lemma second_demo_user_is_duplicate :
  result (insertOne "users"
            [("email", VString "demo@example.com");
             ("passwordHash", VString "another-password-hash-0123");
             ("createdAt", VDate 9%Z)]
            (world (ensureCollection "users" [bsonType [TObject]] (Some usersIndexes)
                      usersOnly)))
  = Thrown DuplicateKey.
Proof. vm_compute. reflexivity. Qed.

(** X9: when [users] is empty and carries no validator, the seed block
    inserts the seed user whether or not the insert of the seed tasks then
    throws; [users] is no longer empty, so a later run of the block
    inserts nothing: seed tasks that failed to go in are not retried. *)
Theorem seed_user_survives_task_failure w o t :
  docsOf "users" (colls w) = [] ->
  validationOf "users" (colls w) = None ->
  let r := seed w in
  let r' := seed (laterShell (world r) o t) in
  docsOf "users" (colls (world r)) = [seedUser (clock w) (nextOid w)]
  /\ (exists k, k `prefix_of` storedTasks (clock w) (nextOid w)
                /\ docsOf "tasks" (colls (world r)) = docsOf "tasks" (colls w) ++ k)
  /\ result r' = Done tt
  /\ colls (world r') = colls (world r).
Proof.
  intros Hu Vu r r'.
  assert (Hd : docsOf "users" (colls (world r)) = [seedUser (clock w) (nextOid w)]).
  { subst r. rewrite seed_unfold, Hu. cbv zeta.
    destruct (insert_seedUser (colls w) (clock w) (nextOid w) Hu Vu) as (db1 & E & Hd).
    rewrite E. cbn [world colls].
    rewrite (insertAll_keepsDocs "tasks" _ db1 "users") by discriminate. exact Hd. }
  split; [exact Hd|]. split.
  - destruct (seed_docs w "tasks") as (k & Hk & Hk'). exists k. split; [|exact Hk'].
    unfold seedsFor in Hk. rewrite Hu in Hk. exact Hk.
  - subst r'. rewrite seed_noop; [split; reflexivity|].
    change (colls (laterShell (world r) o t)) with (colls (world r)). rewrite Hd. discriminate.
Qed.

Lemma seed_user_survives_task_failure_witness :
  let r := seed collidingTask in
  let r' := seed (laterShell (world r) 10%N 10%Z) in
  docsOf "users" (colls (world r)) = [seedUser (clock collidingTask) (nextOid collidingTask)]
  /\ (exists k, k `prefix_of` storedTasks (clock collidingTask) (nextOid collidingTask)
                /\ docsOf "tasks" (colls (world r)) = docsOf "tasks" (colls collidingTask) ++ k)
  /\ result r' = Done tt
  /\ colls (world r') = colls (world r).
Proof.
  apply (seed_user_survives_task_failure collidingTask 10%N 10%Z); vm_compute; reflexivity.
Defined.

(** In that database the task insert does throw: the user is seeded, no
    task is, and the block ends with a duplicate key. *)
Lemma colliding_task_run :
  result (seed collidingTask) = Thrown DuplicateKey
  /\ docsOf "tasks" (colls (world (seed collidingTask))) = docsOf "tasks" (colls collidingTask)
  /\ docsOf "users" (colls (world (seed collidingTask))) = [seedUser 0%Z 0%N].
Proof. vm_compute. repeat split; reflexivity. Qed.


(** *** The schemas *)

Lemma existsb_eqb_false k l : ~ In k l -> existsb (String.eqb k) l = false.
Proof.
  induction l as [|x r IH]; [reflexivity|]. intros H. cbn [existsb].
  rewrite IH by (intros Hr; apply H; right; exact Hr).
  destruct (String.eqb_spec k x) as [->|]; [exfalso; apply H; left; reflexivity | reflexivity].
Qed.

Lemma holds_items ns s l :
  holds ns (items s) (VArray l) = forallb (validate s) l.
Proof. reflexivity. Qed.

(** A schema with [additionalProperties: false] refuses every object with
    a field it does not declare. *)
Lemma undeclared_fails (s : Schema) (d : Doc) k v :
  In (additionalProperties false) s ->
  In (k, v) d -> ~ In k (declaredNames s) ->
  validate s (VObject d) = false.
Proof.
  intros Hs Hd Hk. unfold validate.
  eapply forallb_false_In; [exact Hs|]. cbn [holds orb].
  eapply forallb_false_In; [exact Hd|]. cbn [fst].
  apply existsb_eqb_false, Hk.
Qed.

(** X10: both schemas refuse unknown top-level fields: a user or task
    document with a field whose name is not among the declared properties
    fails validation, whatever else it holds. *)
Theorem unknown_field_rejected coll d k v :
  coll = "users" \/ coll = "tasks" ->
  In (k, v) d ->
  ~ In k (declaredNames (schemaOf coll)) ->
  validate (schemaOf coll) (VObject d) = false.
Proof.
  intros Hc Hd Hk. eapply undeclared_fails; [|exact Hd | exact Hk].
  destruct Hc as [-> | ->]; right; right; left; reflexivity.
Qed.

Lemma unknown_field_rejected_witness :
  validate (schemaOf "tasks")
           (VObject (minimalTask "t" "todo" 1%N 0%Z ++ [("colour", VString "red")]))
  = false.
Proof.
  apply (unknown_field_rejected "tasks" _ "colour" (VString "red")).
  - right. reflexivity.
  - apply in_or_app. right. left. reflexivity.
  - vm_compute. intuition discriminate.
Defined.

(** X11: both schemas refuse a document that lacks one of the fields they
    list under [required]. *)
Theorem missing_required_rejected coll d k :
  coll = "users" \/ coll = "tasks" ->
  In k (requiredOf (schemaOf coll)) ->
  field k d = None ->
  validate (schemaOf coll) (VObject d) = false.
Proof.
  intros Hc Hk Hd. unfold validate.
  eapply forallb_false_In with (x := required (requiredOf (schemaOf coll))).
  - destruct Hc as [-> | ->]; right; left; reflexivity.
  - cbn [holds]. eapply forallb_false_In; [exact Hk|]. rewrite Hd. reflexivity.
Qed.

Lemma missing_required_rejected_witness :
  validate (schemaOf "users")
           (VObject [("email", VString "a@example.com"); ("createdAt", VDate 0%Z)])
  = false.
Proof.
  apply (missing_required_rejected "users" _ "passwordHash").
  - left. reflexivity.
  - right. left. reflexivity.
  - reflexivity.
Defined.

Lemma status_eqb_In s :
  (String.eqb s "todo" || (String.eqb s "in_progress"
     || (String.eqb s "done" || (String.eqb s "archived" || false)))) = true
  <-> In s ["todo"; "in_progress"; "done"; "archived"].
Proof.
  cbn [In]. rewrite !orb_true_iff, !String.eqb_eq. intuition (try congruence; auto).
Qed.

(** X12: a user document with just the three required fields is accepted
    exactly when its email has 5 to 320 characters and its password hash at
    least 20 (bounds included), whatever the creation date. *)
Theorem minimal_user_accepted_iff email hash created :
  validate usersSchema (VObject (minimalUser email hash created)) = true
  <-> 5 <= String.length email <= 320 /\ 20 <= String.length hash.
Proof.
  unfold validate, usersSchema, minimalUser. cbn -[Nat.leb String.length].
  rewrite !andb_true_r, !andb_true_iff, !Nat.leb_le. tauto.
Qed.

(** X13: a task document with just the four required fields is accepted
    exactly when its title has 1 to 300 characters (bounds included) and
    its status is one of "todo", "in_progress", "done", "archived". *)
Theorem minimal_task_accepted_iff title status owner created :
  validate tasksSchema (VObject (minimalTask title status owner created)) = true
  <-> 1 <= String.length title <= 300
      /\ In status ["todo"; "in_progress"; "done"; "archived"].
Proof.
  unfold validate, tasksSchema, minimalTask. cbn -[Nat.leb String.length In].
  rewrite !andb_true_r, !andb_true_iff, !Nat.leb_le, status_eqb_In. tauto.
Qed.

(** X14: the [priority] of a task may be null, an integer of 32 bits
    (the BSON type "int"), or a string of at most 20 characters: the
    length bound applies to strings only, and every other type, a wider
    integer among them, is refused. *)
Theorem task_priority_accepted_iff title status owner created p :
  validate tasksSchema
    (VObject (minimalTask title status owner created ++ [("priority", p)])) = true
  <-> (1 <= String.length title <= 300
       /\ In status ["todo"; "in_progress"; "done"; "archived"])
      /\ priorityOk p.
Proof.
  unfold validate, tasksSchema, minimalTask. cbn -[Nat.leb String.length In isInt32].
  rewrite !andb_true_r, !andb_true_iff, !Nat.leb_le, status_eqb_In.
  destruct p; cbn [typeOf BsonType_eqb orb priorityOk];
    rewrite ?Nat.leb_le; try (intuition (try discriminate; auto); fail).
  destruct (isInt32 z); cbn [BsonType_eqb orb]; intuition (try discriminate; auto).
Qed.

(** The bounds of X14: 2147483647 is an "int", 2147483648 is not. *)
Lemma task_priority_bounds :
  priorityOk (VInt 2147483647) /\ priorityOk (VInt (-2147483648))
  /\ ~ priorityOk (VInt 2147483648) /\ ~ priorityOk (VInt (-2147483649))
  /\ validate tasksSchema
       (VObject (minimalTask "t" "todo" 1%N 0%Z ++ [("priority", VInt 2147483648)])) = false.
Proof.
  split; [reflexivity|]. split; [reflexivity|].
  split; [discriminate|]. split; [discriminate|]. vm_compute. reflexivity.
Qed.

Lemma badItem_fails it : badItem it -> validate checklistItemSchema it = false.
Proof.
  intros [v Hv|fs H|fs H|fs k v Hin Hk].
  - unfold validate. eapply forallb_false_In; [left; reflexivity|].
    cbn [holds existsb]. destruct (typeOf v) eqn:T; try reflexivity.
    exfalso. apply Hv. reflexivity.
  - unfold validate. eapply forallb_false_In; [right; left; reflexivity|].
    cbn [holds forallb]. rewrite H. reflexivity.
  - unfold validate. eapply forallb_false_In; [right; left; reflexivity|].
    cbn [holds forallb]. rewrite H. apply andb_false_r.
  - eapply undeclared_fails; [right; right; left; reflexivity | exact Hin | exact Hk].
Qed.

(** X15: a task is refused when its checklist holds an item that is not an
    object, lacks [text] or [done], or has a field other than [text],
    [done] and [doneAt], whatever the other items and fields are. *)
Theorem bad_checklist_item_rejected d its it :
  field "checklist" d = Some (VArray its) ->
  In it its ->
  badItem it ->
  validate tasksSchema (VObject d) = false.
Proof.
  intros Hc Hin Hbad. unfold validate, tasksSchema.
  eapply forallb_false_In; [right; right; right; left; reflexivity|].
  rewrite holds_properties.
  eapply forallb_false_In; [do 12 right; left; reflexivity|].
  cbn [fst snd]. rewrite Hc. unfold validate at 1.
  eapply forallb_false_In; [right; right; left; reflexivity|].
  rewrite holds_items.
  eapply forallb_false_In; [exact Hin|]. apply (badItem_fails it Hbad).
Qed.

Lemma bad_checklist_item_rejected_witness :
  validate tasksSchema
    (VObject (minimalTask "t" "todo" 1%N 0%Z
              ++ [("checklist", VArray [VObject [("text", VString "only text")]])]))
  = false.
Proof.
  apply (bad_checklist_item_rejected _ [VObject [("text", VString "only text")]]
           (VObject [("text", VString "only text")])).
  - reflexivity.
  - left. reflexivity.
  - apply item_without_done. reflexivity.
Defined.

(** X16: after a seed block that returns [users] is never empty: the
    guard of the block has closed for good. *)
Theorem users_nonempty_after_seed w :
  result (seed w) = Done tt ->
  docsOf "users" (colls (world (seed w))) <> [].
Proof. apply seed_users_nonempty. Qed.

Lemma users_nonempty_after_seed_witness :
  docsOf "users" (colls (world (seed emptyWorld))) <> [].
Proof. apply (users_nonempty_after_seed emptyWorld). vm_compute. reflexivity. Defined.

(** X17: an entry without keys ([idx.keys] absent or [{}]) asks the server
    for an index on no key at all: [ensureCollection] throws and does not
    return, whatever the other entries are. *)
Theorem entry_without_keys_throws name schema l idx w :
  In idx l -> keysOf idx = [] ->
  exists e, result (ensureCollection name schema (Some l) w) = Thrown e.
Proof.
  intros Hin Hk.
  destruct (result (ensureCollection name schema (Some l) w)) as [[]|e] eqn:E; [|eauto].
  exfalso. apply ensureCollection_Done in E. rewrite List.Forall_forall in E.
  destruct (E idx Hin) as (Hne & _). exact (Hne Hk).
Qed.

Lemma entry_without_keys_throws_witness :
  exists e, result (ensureCollection "users" [bsonType [TObject]]
                      (Some [mkIndexSpec None None]) emptyWorld) = Thrown e.
Proof.
  apply (entry_without_keys_throws "users" [bsonType [TObject]] [mkIndexSpec None None]
           (mkIndexSpec None None) emptyWorld).
  - left. reflexivity.
  - reflexivity.
Defined.

(** There the server accepts the validator and refuses the index. *)
Lemma entry_without_keys_example :
  result (ensureCollection "users" [bsonType [TObject]]
            (Some [mkIndexSpec None None]) emptyWorld) = Thrown CannotCreateIndex.
Proof. vm_compute. reflexivity. Qed.

(** X18: an entry without options (or without a name and a [collection]
    in them) is created on the collection of the [name] argument under the
    name built from its keys, each field with its direction (1, -1) or
    its index kind, joined by underscores: when [ensureCollection]
    returns, that index is there. *)
Theorem unnamed_entry_gets_derived_name name schema l idx w :
  In idx l ->
  opt_name (optionsOf idx) = None ->
  opt_collection (optionsOf idx) = None ->
  result (ensureCollection name schema (Some l) w) = Done tt ->
  mkIndex (derivedName (keysOf idx)) (keysOf idx) (optionsOf idx)
    ∈ indexesOf name (colls (world (ensureCollection name schema (Some l) w))).
Proof.
  intros Hin Hn Hc E.
  apply ensureCollection_Done in E. rewrite List.Forall_forall in E.
  destruct (E idx Hin) as (_ & H).
  rewrite indexTarget_cases, Hc in H. unfold Server.requested in H.
  rewrite Hn in H. exact H.
Qed.

Lemma unnamed_entry_gets_derived_name_witness :
  mkIndex (derivedName (keysOf (mkIndexSpec (Some [("createdAt", KDir Descending)]) None)))
          (keysOf (mkIndexSpec (Some [("createdAt", KDir Descending)]) None))
          (optionsOf (mkIndexSpec (Some [("createdAt", KDir Descending)]) None))
    ∈ indexesOf "users"
        (colls (world (ensureCollection "users" [bsonType [TObject]]
                         (Some [mkIndexSpec (Some [("createdAt", KDir Descending)]) None])
                         emptyWorld))).
Proof.
  apply (unnamed_entry_gets_derived_name "users" [bsonType [TObject]]
           [mkIndexSpec (Some [("createdAt", KDir Descending)]) None]
           (mkIndexSpec (Some [("createdAt", KDir Descending)]) None) emptyWorld).
  - left. reflexivity.
  - reflexivity.
  - reflexivity.
  - vm_compute. reflexivity.
Defined.

(** The names built from the keys of the fixed lists' first entries. *)
Lemma derivedName_examples :
  derivedName [("email", KDir Ascending)] = "email_1"
  /\ derivedName [("createdAt", KDir Descending)] = "createdAt_-1"
  /\ derivedName [("status", KDir Ascending); ("createdAt", KDir Descending)] = "status_1_createdAt_-1"
  /\ derivedName [("title", KStr "text"); ("tags", KStr "text")] = "title_text_tags_text"
  /\ derivedName [] = "".
Proof. vm_compute. repeat split; reflexivity. Qed.


(** *** The seed block on its own *)

(** X19: on a database where [users] and [tasks] hold no document and
    carry no validator, and [tasks] has no unique index but the one on
    [_id] (an empty database is one), the seed block returns and leaves
    one document in [users], the seed user, and two in [tasks], the seed
    tasks; both tasks have [isDeleted] false and an [ownerId] equal to the
    [_id] of the user, the one ObjectId the block minted. *)
Theorem seed_fills_fresh_collections w :
  docsOf "users" (colls w) = [] ->
  docsOf "tasks" (colls w) = [] ->
  validationOf "users" (colls w) = None ->
  validationOf "tasks" (colls w) = None ->
  onlyIdEnforced (indexesOf "tasks" (colls w)) = true ->
  let r := seed w in
  result r = Done tt
  /\ docsOf "users" (colls (world r)) = [seedUser (clock w) (nextOid w)]
  /\ docsOf "tasks" (colls (world r)) = storedTasks (clock w) (nextOid w)
  /\ length (docsOf "tasks" (colls (world r))) = 2
  /\ field "_id" (seedUser (clock w) (nextOid w)) = Some (VObjectId (nextOid w))
  /\ Forall (fun d => field "isDeleted" d = Some (VBool false)
                      /\ field "ownerId" d = Some (VObjectId (nextOid w)))
            (docsOf "tasks" (colls (world r))).
Proof.
  intros Hu Ht Vu Vt Hi r. subst r.
  assert (Hi' : onlyIdEnforced (coll_indexes (Server.implicit (colls w) "tasks")) = true).
  { unfold indexesOf, Server.implicit in *.
    destruct (colls w !! "tasks"); [exact Hi | vm_compute; reflexivity]. }
  destruct (seed_on_empty w Hu Ht Vu Vt Hi') as (S1 & S2 & S3).
  rewrite S1, S2, S3.
  split; [reflexivity|]. split; [reflexivity|]. split; [reflexivity|].
  split; [reflexivity|]. split; [reflexivity|].
  repeat constructor.
Qed.

Lemma seed_fills_fresh_collections_witness :
  let r := seed emptyWorld in
  result r = Done tt
  /\ docsOf "users" (colls (world r)) = [seedUser (clock emptyWorld) (nextOid emptyWorld)]
  /\ docsOf "tasks" (colls (world r)) = storedTasks (clock emptyWorld) (nextOid emptyWorld)
  /\ length (docsOf "tasks" (colls (world r))) = 2
  /\ field "_id" (seedUser (clock emptyWorld) (nextOid emptyWorld))
     = Some (VObjectId (nextOid emptyWorld))
  /\ Forall (fun d => field "isDeleted" d = Some (VBool false)
                      /\ field "ownerId" d = Some (VObjectId (nextOid emptyWorld)))
            (docsOf "tasks" (colls (world r))).
Proof. apply (seed_fills_fresh_collections emptyWorld); reflexivity. Defined.

(** X20: when [users] is empty the seed block counts [users], prints its
    progress line and inserts the seed user before it does anything for
    [tasks]; the insert of the tasks follows only when the user went in,
    and the tasks it sends carry the ObjectId of that user as [ownerId].
    When [users] is not empty the block only counts. *)
Theorem seed_inserts_user_first w :
  let r := seed w in
  let now := clock w in
  let uid := nextOid w in
  match docsOf "users" (colls w) with
  | _ :: _ => trace r = [EvCountDocuments "users"]
  | [] =>
      match Server.insert "users" (seedUser now uid) (colls w) with
      | inl e =>
          result r = Thrown e
          /\ trace r = [EvCountDocuments "users"; EvPrint MsgSeedingUser;
                        EvInsertOne "users" (seedUser now uid)]
          /\ colls (world r) = colls w
      | inr db1 =>
          trace r = [EvCountDocuments "users"; EvPrint MsgSeedingUser;
                     EvInsertOne "users" (seedUser now uid);
                     EvPrint MsgSeedingTasks; EvInsertMany "tasks" (seedTasks now uid)]
          /\ docsOf "users" db1 = [seedUser now uid]
          /\ docsOf "users" (colls (world r)) = [seedUser now uid]
      end
  end
  /\ Forall (fun d => field "ownerId" d = field "_id" (seedUser now uid)) (seedTasks now uid).
Proof.
  intros r now uid. subst r now uid. split; [|repeat constructor].
  rewrite seed_unfold.
  destruct (docsOf "users" (colls w)) as [|d ds] eqn:Hu; [|reflexivity].
  cbv zeta. destruct (Server.insert "users" _ (colls w)) as [e|db1] eqn:E.
  - repeat split; reflexivity.
  - cbn [result world trace colls]. split; [reflexivity|].
    assert (Hd : docsOf "users" db1 = [seedUser (clock w) (nextOid w)]).
    { rewrite (insert_docs _ _ _ _ E), Hu. reflexivity. }
    split; [exact Hd|].
    rewrite (insertAll_keepsDocs "tasks" _ db1 "users") by discriminate. exact Hd.
Qed.

(** X21: the server refuses the validator step of both [ensureCollection]
    calls of the script, on every database: each schema carries the
    [default] keyword, which the server does not parse.  That keyword is
    the only obstacle: without it both schemas are accepted. *)
Theorem script_schemas_refused db :
  validatorCall "users" (mkValidation usersSchema Moderate Error) db = inl FailedToParse
  /\ validatorCall "tasks" (mkValidation tasksSchema Moderate Error) db = inl FailedToParse
  /\ Server.wellFormed usersSchema = false
  /\ Server.wellFormed tasksSchema = false
  /\ Server.wellFormed (withoutDefaults usersSchema) = true
  /\ Server.wellFormed (withoutDefaults tasksSchema) = true.
Proof.
  assert (Ht : refusal "tasks" tasksSchema db = Some FailedToParse).
  { unfold refusal. rewrite reachable_tasks, (proj2 schemas_not_wellFormed). reflexivity. }
  rewrite !validatorCall_refusal. cbn [validator].
  rewrite usersSchema_refused, Ht.
  split; [reflexivity|]. split; [reflexivity|].
  split; [apply schemas_not_wellFormed|]. split; [apply schemas_not_wellFormed|].
  split; vm_compute; reflexivity.
Qed.
